(** * shplitter: key/BPM analysis and the interactive splitting loop

    A shallow embedding of [main.py]: the key estimator of
    [detect_key_and_bpm] (template matching over a 12-bin chroma mean), the
    per-stem persistence loop of [split_audio] and the prompt loop of [main].

    Numbers are kept behind a small interface ([Scalar]) so that the same
    definitions run on IEEE binary64 (what numpy computes with; [F64]) and on
    exact rationals ([Exact]).  External libraries (yt_dlp, librosa, demucs,
    the file system) are fields of a record of collaborators ([Env]). *)

From Stdlib Require Import ZArith QArith Qround Qpower List String Ascii Bool Lia.
From Stdlib Require Import Floats.SpecFloat DecimalString.
Import ListNotations.

Open Scope string_scope.

(* ===================================================================== *)
(** ** Python exceptions and fallible results *)

(** Only the split that [except Exception] observes is kept: an instance of
    [Exception] (ValueError, OSError, EOFError, ...) or a [BaseException]
    outside it (KeyboardInterrupt, SystemExit). [exn_msg] is [str(e)]. *)
Inductive exn : Type :=
| Exception (cls msg : string)
| BaseException (cls msg : string).

Definition exn_msg (e : exn) : string :=
  match e with Exception _ m => m | BaseException _ m => m end.

Inductive result (A : Type) : Type :=
| Ok (a : A)
| Raise (e : exn).
Arguments Ok {A} a.
Arguments Raise {A} e.

Definition rbind {A B} (r : result A) (k : A -> result B) : result B :=
  match r with Ok a => k a | Raise e => Raise e end.

Declare Scope res_scope.
Delimit Scope res_scope with res.
Notation "x <- m ;; k" := (rbind m (fun x => k))
  (at level 61, m at next level, right associativity) : res_scope.

(** A list comprehension whose element expression may raise. *)
Fixpoint mapR {A B} (f : A -> result B) (l : list A) : result (list B) :=
  match l with
  | [] => Ok []
  | a :: l' =>
      match f a with
      | Raise e => Raise e
      | Ok b => match mapR f l' with
                | Raise e => Raise e
                | Ok bs => Ok (b :: bs)
                end
      end
  end.

(* ===================================================================== *)
(** ** Scalars *)

(** What the estimator asks of a number: the promotion of the integer
    template entries done by [np.dot], sum and product, Python's [>] and
    [==], the [<=] and NaN test of [np.argmax], and [int(x)]. *)
Class Scalar (R : Type) : Type := {
  s_of_int : Z -> R;
  s_add : R -> R -> R;
  s_mul : R -> R -> R;
  s_gt : R -> R -> bool;
  s_eq : R -> R -> bool;
  s_le : R -> R -> bool;
  s_isnan : R -> bool;
  s_int : R -> result Z
}.

(** numpy's float64. *)
Module F64.
Definition prec : Z := 53.
Definition emax : Z := 1024.

Definition of_int (z : Z) : spec_float := binary_normalize prec emax z 0 false.
Definition add : spec_float -> spec_float -> spec_float := SFadd prec emax.
Definition mul : spec_float -> spec_float -> spec_float := SFmul prec emax.
Definition gt (x y : spec_float) : bool := SFltb y x.
Definition isnan (x : spec_float) : bool :=
  match x with S754_nan => true | _ => false end.

(** [int(x)]: truncation toward zero; NaN and the infinities raise. *)
Definition to_int (x : spec_float) : result Z :=
  match x with
  | S754_zero _ => Ok 0%Z
  | S754_nan => Raise (Exception "ValueError" "cannot convert float NaN to integer")
  | S754_infinity _ =>
      Raise (Exception "OverflowError" "cannot convert float infinity to integer")
  | S754_finite s m e =>
      let a := match e with
               | Z0 => Zpos m
               | Zpos p => Z.shiftl (Zpos m) (Zpos p)
               | Zneg p => Z.shiftr (Zpos m) (Zpos p)
               end in
      Ok (if s then Z.opp a else a)
  end.

#[global] Instance scalar : Scalar spec_float := {|
  s_of_int := of_int;
  s_add := add;
  s_mul := mul;
  s_gt := gt;
  s_eq := SFeqb;
  s_le := SFleb;
  s_isnan := isnan;
  s_int := to_int
|}.

Definition zero : spec_float := S754_zero false.
End F64.

(** Exact rational arithmetic: no rounding, no NaN, no infinities. *)
Module Exact.
#[global] Instance scalar : Scalar Q := {|
  s_of_int := inject_Z;
  s_add := Qplus;
  s_mul := Qmult;
  s_gt := fun x y => negb (Qle_bool x y);
  s_eq := Qeq_bool;
  s_le := Qle_bool;
  s_isnan := fun _ => false;
  s_int := fun x => Ok (Z.quot (Qnum x) (Zpos (Qden x)))
|}.
End Exact.

(* ===================================================================== *)
(** ** numpy and builtins used by the key estimator *)

(** [np.roll(a, i)] on a 1-d array: element [j] moves to [(j + i) mod n]. *)
Definition np_roll {A} (a : list A) (i : nat) : list A :=
  let n := List.length a in
  let k := (i mod n)%nat in
  (skipn (n - k) a ++ firstn (n - k) a)%list.

(** [str(n)] of a non-negative [int]. *)
Definition str_of_nat (n : nat) : string :=
  NilZero.string_of_uint (Nat.to_uint n).

(** [str(e)] of the ValueError that [np.dot] raises on two 1-d arrays whose
    lengths [m] and [n] differ. *)
Definition shapes_not_aligned (m n : nat) : string :=
  "shapes (" ++ str_of_nat m ++ ",) and (" ++ str_of_nat n ++ ",) not aligned: "
  ++ str_of_nat m ++ " (dim 0) != " ++ str_of_nat n ++ " (dim 0)".

Section Estimator.
Context {R : Type} `{Scalar R}.

(** [np.dot] of an integer vector with a scalar vector: the products are
    accumulated from left to right starting at zero; vectors of different
    lengths raise. *)
Fixpoint dot_acc (acc : R) (a : list Z) (b : list R) : R :=
  match a, b with
  | x :: a', y :: b' => dot_acc (s_add acc (s_mul (s_of_int x) y)) a' b'
  | _, _ => acc
  end.

Definition np_dot (a : list Z) (b : list R) : result R :=
  if (List.length a =? List.length b)%nat then Ok (dot_acc (s_of_int 0) a b)
  else Raise (Exception "ValueError"
               (shapes_not_aligned (List.length a) (List.length b))).

(** [np.argmax] of a 1-d float array: the scan keeps the running maximum
    [mp] and its index, replaces it when [not (x <= mp)], and stops at the
    first NaN. *)
Fixpoint argmax_from (mp : R) (idx i : nat) (l : list R) : nat :=
  match l with
  | [] => idx
  | x :: l' =>
      if negb (s_le x mp)
      then if s_isnan x then i else argmax_from x i (S i) l'
      else argmax_from mp idx (S i) l'
  end.

Definition np_argmax (l : list R) : result nat :=
  match l with
  | [] => Raise (Exception "ValueError" "attempt to get argmax of an empty sequence")
  | x :: l' => Ok (if s_isnan x then 0%nat else argmax_from x 0 1 l')
  end.

(** The builtin [max] of a list: the first element, replaced by each later
    element that compares [>] to the current one. *)
Fixpoint max_from (m : R) (l : list R) : R :=
  match l with
  | [] => m
  | x :: l' => max_from (if s_gt x m then x else m) l'
  end.

Definition py_max (l : list R) : result R :=
  match l with
  | [] => Raise (Exception "ValueError" "max() arg is an empty sequence")
  | x :: l' => Ok (max_from x l')
  end.

(** [keys[i]] *)
Definition py_index {A} (l : list A) (i : nat) : result A :=
  match nth_error l i with
  | Some a => Ok a
  | None => Raise (Exception "IndexError" "list index out of range")
  end.

(** *** The key estimator: lines 48-66 of [detect_key_and_bpm] *)

Definition major_profile : list Z := [1; 0; 1; 0; 1; 1; 0; 1; 0; 1; 0; 1]%Z.
Definition minor_profile : list Z := [1; 0; 1; 1; 0; 1; 0; 1; 1; 0; 1; 0]%Z.

Definition keys : list string :=
  ["C"; "C#"; "D"; "D#"; "E"; "F"; "F#"; "G"; "G#"; "A"; "A#"; "B"].

Definition scores (profile : list Z) (chroma_mean : list R) : result (list R) :=
  mapR (fun i => np_dot (np_roll profile i) chroma_mean) (seq 0 12).

Definition major_scores := scores major_profile.
Definition minor_scores := scores minor_profile.

Definition estimate_key (chroma_mean : list R) : result string :=
  (major <- major_scores chroma_mean ;;
   minor <- minor_scores chroma_mean ;;
   best_major <- np_argmax major ;;
   best_minor <- np_argmax minor ;;
   max_major <- py_max major ;;
   max_minor <- py_max minor ;;
   if s_gt max_major max_minor
   then k <- py_index keys best_major ;; Ok (k ++ " major")
   else k <- py_index keys best_minor ;; Ok (k ++ " minor"))%res.

End Estimator.

(* ===================================================================== *)
(** ** Strings, paths and formatting *)

(** [str.lower] on the bytes of the string: the ASCII capitals are lowered,
    every other byte is kept.  No non-ASCII character lowers to one of the
    letters e, x, i, t, so the test [url.lower() == "exit"] is decided
    exactly. *)
Definition ascii_lower (c : ascii) : ascii :=
  let n := nat_of_ascii c in
  if ((65 <=? n) && (n <=? 90))%nat then ascii_of_nat (n + 32) else c.

Fixpoint lower (s : string) : string :=
  match s with
  | EmptyString => EmptyString
  | String c s' => String (ascii_lower c) (lower s')
  end.

(** [s.rfind(c)] for a one-character [c]: the last index, or -1. *)
Fixpoint rfind_aux (c : ascii) (s : string) (i last : Z) : Z :=
  match s with
  | EmptyString => last
  | String a s' => rfind_aux c s' (i + 1)%Z (if Ascii.eqb a c then i else last)
  end.

Definition rfind (c : ascii) (s : string) : Z := rfind_aux c s 0 (-1).

(** [s[:i]] and [s[i:]] for [0 <= i]. *)
Definition py_take (i : Z) (s : string) : string := substring 0 (Z.to_nat i) s.
Definition py_drop (i : Z) (s : string) : string :=
  substring (Z.to_nat i) (String.length s - Z.to_nat i) s.

Fixpoint all_chars (f : ascii -> bool) (s : string) : bool :=
  match s with
  | EmptyString => true
  | String a s' => f a && all_chars f s'
  end.

(** [c in s] for a character [c]. *)
Fixpoint has_char (c : ascii) (s : string) : bool :=
  match s with
  | EmptyString => false
  | String a s' => Ascii.eqb a c || has_char c s'
  end.

Fixpoint ends_with_char (c : ascii) (s : string) : bool :=
  match s with
  | EmptyString => false
  | String a EmptyString => Ascii.eqb a c
  | String _ s' => ends_with_char c s'
  end.

(** [s.rstrip("/")] *)
Fixpoint rstrip_slash (s : string) : string :=
  match s with
  | EmptyString => EmptyString
  | String a s' =>
      if all_chars (Ascii.eqb "/") s then EmptyString else String a (rstrip_slash s')
  end.

(** The four functions of [posixpath] that the program calls. *)
Definition os_path_join (a b : string) : string :=
  if prefix "/" b then b
  else if (String.length a =? 0)%nat || ends_with_char "/" a then a ++ b
  else a ++ "/" ++ b.

Definition os_path_basename (p : string) : string := py_drop (rfind "/" p + 1) p.

Definition os_path_dirname (p : string) : string :=
  let head := py_take (rfind "/" p + 1) p in
  if negb (String.length head =? 0)%nat && negb (all_chars (Ascii.eqb "/") head)
  then rstrip_slash head else head.

(** [os.path.splitext(p)[0]]: cut at the last dot, unless that dot is not
    after the last separator or only dots precede it in the file name. *)
Definition os_path_splitext_root (p : string) : string :=
  let sepIndex := rfind "/" p in
  let dotIndex := rfind "." p in
  if (sepIndex <? dotIndex)%Z
  then
    let name := substring (Z.to_nat (sepIndex + 1)) (Z.to_nat (dotIndex - (sepIndex + 1))) p in
    if all_chars (Ascii.eqb ".") name then p else py_take dotIndex p
  else p.

(** [s.replace(old, new)] for a non-empty [old]: occurrences are replaced
    from left to right without overlap; [skip] counts the characters of a
    matched occurrence still to be dropped. *)
Fixpoint replace_aux (old new : string) (skip : nat) (s : string) : string :=
  match s with
  | EmptyString => EmptyString
  | String c s' =>
      match skip with
      | S k => replace_aux old new k s'
      | O =>
          if prefix old s
          then new ++ replace_aux old new (String.length old - 1) s'
          else String c (replace_aux old new 0 s')
      end
  end.

Definition py_replace (old new s : string) : string := replace_aux old new 0 s.

(** [str(n)] of an [int] and of a [bool]. *)
Definition str_of_int (z : Z) : string := NilZero.string_of_int (Z.to_int z).
Definition str_of_bool (b : bool) : string := if b then "True" else "False".

(** The f-string of line 130: [f"{song_title}_{key}_{int(bpm)}"]. *)
Definition folder_name {R} `{Scalar R} (song_title key : string) (bpm : R)
  : result string :=
  (n <- s_int bpm ;; Ok (song_title ++ "_" ++ key ++ "_" ++ str_of_int n))%res.

(* ===================================================================== *)
(** ** The collaborators and the effect monad *)

(** What a run does that an observer can see, in program order.  An event
    of a collaborator records that it was invoked, whether or not it then
    raised. *)
Inductive event : Type :=
| Print (line : string)
| Input (prompt line : string)
| InputEOF (prompt : string)
| Makedirs (path : string)
| Download (url outtmpl : string)
| Load (path : string)
| BeatTrack
| ChromaStft
| NewSeparator (model device : string)
| Separate (path : string)
| SaveAudio (source path : string) (samplerate : Z).

(** The libraries the program imports.  [fs] is the state of the file system
    (and of whatever else the collaborators keep); a collaborator that writes
    returns the new state.
    - [ydl_download url outtmpl]: [extract_info(url, download=True)]
      followed by [prepare_filename];
    - [chroma_mean w]: [np.mean(chroma_stft(y, sr), axis=1)];
    - [beat_track w]: the tempo of [librosa.beat.beat_track], as [float];
    - [separate_audio_file]: the [sources] mapping in iteration order;
    - [getcwd]: [os.getcwd()], which raises when the working directory has
      been removed. *)
Record Env (R : Type) : Type := {
  fs : Type;
  waveform : Type;
  audio : Type;
  separator : Type;
  ydl_download : string -> string -> fs -> result string * fs;
  path_exists : string -> fs -> bool;
  makedirs : string -> fs -> result unit * fs;
  getcwd : fs -> result string;
  access_w : string -> fs -> bool;
  librosa_load : string -> fs -> result waveform;
  beat_track : waveform -> result R;
  chroma_mean : waveform -> result (list R);
  float_str : R -> string;
  cuda_is_available : bool;
  new_separator : string -> string -> fs -> result separator * fs;
  separate_audio_file : separator -> string -> fs -> result (list (string * audio));
  samplerate : separator -> Z;
  save_audio : audio -> string -> Z -> fs -> result unit * fs
}.
Arguments fs {R} e.
Arguments waveform {R} e.
Arguments audio {R} e.
Arguments separator {R} e.
Arguments ydl_download {R} e.
Arguments path_exists {R} e.
Arguments makedirs {R} e.
Arguments getcwd {R} e.
Arguments access_w {R} e.
Arguments librosa_load {R} e.
Arguments beat_track {R} e.
Arguments chroma_mean {R} e.
Arguments float_str {R} e.
Arguments cuda_is_available {R} e.
Arguments new_separator {R} e.
Arguments separate_audio_file {R} e.
Arguments samplerate {R} e.
Arguments save_audio {R} e.

(** A computation: from the state before to a result, the state after and
    the events emitted. *)
Definition M (S A : Type) : Type := S -> result A * S * list event.

Definition ret {S A} (a : A) : M S A := fun d => (Ok a, d, []).

Definition raise {S A} (e : exn) : M S A := fun d => (Raise e, d, []).

Definition bind {S A B} (m : M S A) (k : A -> M S B) : M S B :=
  fun d =>
    match m d with
    | (Ok a, d1, t1) =>
        match k a d1 with (r, d2, t2) => (r, d2, (t1 ++ t2)%list) end
    | (Raise e, d1, t1) => (Raise e, d1, t1)
    end.

Definition emit {S} (ev : event) : M S unit := fun d => (Ok tt, d, [ev]).

Definition print {S} (line : string) : M S unit := emit (Print line).

(** A pure fallible value. *)
Definition lift {S A} (r : result A) : M S A := fun d => (r, d, []).

(** A collaborator that reads the state. *)
Definition reads {S A} (f : S -> A) : M S A := fun d => (Ok (f d), d, []).

(** A collaborator that reads the state and may raise. *)
Definition tries {S A} (f : S -> result A) : M S A := fun d => (f d, d, []).

(** A collaborator that may raise and may change the state. *)
Definition call {S A} (ev : event) (f : S -> result A * S) : M S A :=
  fun d => match f d with (r, d1) => (r, d1, [ev]) end.

(** [try: m  except Exception as e: h e] *)
Definition try_except {S A} (m : M S A) (h : exn -> M S A) : M S A :=
  fun d =>
    match m d with
    | (Raise (Exception c msg), d1, t1) =>
        match h (Exception c msg) d1 with (r, d2, t2) => (r, d2, (t1 ++ t2)%list) end
    | other => other
    end.

Declare Scope io_scope.
Delimit Scope io_scope with io.
Notation "x <- m ;; k" := (bind m (fun x => k))
  (at level 61, m at next level, right associativity) : io_scope.
Notation "m ;;; k" := (bind m (fun _ => k))
  (at level 61, right associativity) : io_scope.

(* ===================================================================== *)
(** ** The program *)

Section Program.
Context {R : Type} `{Scalar R} (E : Env R).

Definition IO (A : Type) : Type := M (fs E) A.
Local Open Scope io_scope.

Definition download_audio (url download_folder : string) : IO string :=
  let output_template := os_path_join download_folder "%(title)s.%(ext)s" in
  name <- call (Download url output_template) (ydl_download E url output_template) ;;
  ret (py_replace ".m4a" ".mp3" (py_replace ".webm" ".mp3" name)).

Definition detect_key_and_bpm (input_path : string) : IO (string * R) :=
  w <- call (Load input_path) (fun d => (librosa_load E input_path d, d)) ;;
  tempo <- call BeatTrack (fun d => (beat_track E w, d)) ;;
  c <- call ChromaStft (fun d => (chroma_mean E w, d)) ;;
  key <- lift (estimate_key c) ;;
  ret (key, tempo).

(** One turn of the [for] loop of [split_audio] (lines 88-98). *)
Definition save_source (sep : separator E) (output_folder : string)
    (item : string * audio E) : IO unit :=
  let (source, a) := item in
  let out := os_path_join output_folder (source ++ ".wav") in
  try_except
    (call (SaveAudio source out (samplerate E sep))
          (save_audio E a out (samplerate E sep)) ;;;
     print ("Saved " ++ source ++ " to " ++ out))
    (fun e =>
       print ("Error saving " ++ source ++ ": " ++ exn_msg e) ;;;
       cwd <- tries (getcwd E) ;;
       print ("Current working directory: " ++ cwd) ;;;
       print ("Output folder: " ++ output_folder) ;;;
       print ("File path: " ++ out) ;;;
       ex <- reads (path_exists E (os_path_dirname out)) ;;
       print ("File path exists: " ++ str_of_bool ex) ;;;
       wr <- reads (access_w E (os_path_dirname out)) ;;
       print ("File path writable: " ++ str_of_bool wr)).

Fixpoint save_sources (sep : separator E) (output_folder : string)
    (sources : list (string * audio E)) : IO unit :=
  match sources with
  | [] => ret tt
  | item :: rest =>
      save_source sep output_folder item ;;;
      save_sources sep output_folder rest
  end.

Definition split_audio (input_path output_folder : string) : IO unit :=
  print ("Splitting audio: " ++ input_path) ;;;
  let device := if cuda_is_available E then "cuda" else "cpu" in
  sep <- call (NewSeparator "htdemucs_ft" device)
              (new_separator E "htdemucs_ft" device) ;;
  sources <- call (Separate input_path)
                  (fun d => (separate_audio_file E sep input_path d, d)) ;;
  call (Makedirs output_folder) (makedirs E output_folder) ;;;
  save_sources sep output_folder sources ;;;
  print "Audio splitting completed.".

(** How a turn of [while True] ends: [break], or the next turn (by
    [continue] or by reaching the end of the body). *)
Inductive loop_ctl : Type := Break | Continue.

Definition prompt : string := "Enter YouTube URL (or type 'exit' to quit): ".

(** The body of the loop of [main] once [input] has returned [url]
    (lines 112-135). *)
Definition iteration (download_folder output_folder url : string) : IO loop_ctl :=
  if String.eqb (lower url) "exit" then ret Break
  else
    input_path <- download_audio url download_folder ;;
    ex <- reads (path_exists E input_path) ;;
    if negb ex then
      print "Error downloading the file." ;;; ret Continue
    else
      kb <- detect_key_and_bpm input_path ;;
      let (key, bpm) := (kb : string * R) in
      print ("Detected Key: " ++ key ++ ", BPM: " ++ float_str E bpm) ;;;
      let song_title := os_path_splitext_root (os_path_basename input_path) in
      name <- lift (folder_name song_title key bpm) ;;
      let new_output_folder := os_path_join output_folder name in
      call (Makedirs new_output_folder) (makedirs E new_output_folder) ;;;
      split_audio input_path new_output_folder ;;;
      ret Continue.

(** [while True]: [inputs] are the lines the operator will type; when they
    run out, [input] raises [EOFError]. *)
Fixpoint main_loop (download_folder output_folder : string)
    (inputs : list string) : IO unit :=
  match inputs with
  | [] =>
      emit (InputEOF prompt) ;;;
      raise (Exception "EOFError" "EOF when reading a line")
  | url :: rest =>
      emit (Input prompt url) ;;;
      c <- iteration download_folder output_folder url ;;
      match c with
      | Break => ret tt
      | Continue => main_loop download_folder output_folder rest
      end
  end.

Definition main (inputs : list string) : IO unit :=
  let download_folder := "inputs" in
  let output_folder := "outputs" in
  call (Makedirs download_folder) (makedirs E download_folder) ;;;
  call (Makedirs output_folder) (makedirs E output_folder) ;;;
  main_loop download_folder output_folder inputs.

End Program.

(* ===================================================================== *)
(** ** A concrete set of collaborators

    A small file system (the list of paths that exist) and scripted
    libraries, to run the program on: the URL ["missing"] downloads nothing,
    ["corrupt"] cannot be decoded, ["huge"] cannot be separated, and the
    paths in [unwritable] cannot be written. *)
Module Demo.

(** The binary64 nearest to 128.7. *)
Definition bpm_128_7 : spec_float :=
  SFdiv F64.prec F64.emax (F64.of_int 1287) (F64.of_int 10).

(** A chroma mean with all its energy on D, F and A. *)
Definition chroma_dm : list spec_float :=
  map F64.of_int [0; 0; 1; 0; 0; 1; 0; 0; 0; 1; 0; 0]%Z.

Definition exists_in (p : string) (d : list string) : bool :=
  existsb (String.eqb p) d.

Definition download (url outtmpl : string) (d : list string)
  : result string * list string :=
  if String.eqb url "missing" then (Ok "inputs/missing.webm", d)
  else (Ok ("inputs/" ++ url ++ ".webm"), ("inputs/" ++ url ++ ".mp3") :: d).

Definition load (p : string) (d : list string) : result string :=
  if String.eqb p "inputs/corrupt.mp3"
  then Raise (Exception "NoBackendError" "could not decode")
  else Ok p.

Definition separate (sep : unit) (p : string) (d : list string)
  : result (list (string * nat)) :=
  if String.eqb p "inputs/huge.mp3"
  then Raise (Exception "RuntimeError" "out of memory")
  else Ok [("drums", 0); ("bass", 1); ("other", 2); ("vocals", 3)]%nat.

Definition save (unwritable : list string) (a : nat) (out : string) (sr : Z)
    (d : list string) : result unit * list string :=
  if exists_in out unwritable
  then (Raise (Exception "OSError" "permission denied"), d)
  else (Ok tt, out :: d).

Definition env (unwritable : list string) : Env spec_float := {|
  fs := list string;
  waveform := string;
  audio := nat;
  separator := unit;
  ydl_download := download;
  path_exists := exists_in;
  makedirs := fun p d => (Ok tt, p :: d);
  getcwd := fun _ => Ok "/work";
  access_w := fun p d => exists_in p d;
  librosa_load := load;
  beat_track := fun _ => Ok bpm_128_7;
  chroma_mean := fun _ => Ok chroma_dm;
  float_str := fun _ => "128.7";
  cuda_is_available := false;
  new_separator := fun _ _ d => (Ok tt, d);
  separate_audio_file := separate;
  samplerate := fun _ => 44100%Z;
  save_audio := save unwritable
|}.

End Demo.

(** The collaborators of [Demo] after the working directory has been
    removed: [os.getcwd()] raises. *)
Module Gone.

Definition env (unwritable : list string) : Env spec_float := {|
  fs := list string;
  waveform := string;
  audio := nat;
  separator := unit;
  ydl_download := Demo.download;
  path_exists := Demo.exists_in;
  makedirs := fun p d => (Ok tt, p :: d);
  getcwd := fun _ =>
    Raise (Exception "FileNotFoundError" "[Errno 2] No such file or directory");
  access_w := fun p d => Demo.exists_in p d;
  librosa_load := Demo.load;
  beat_track := fun _ => Ok Demo.bpm_128_7;
  chroma_mean := fun _ => Ok Demo.chroma_dm;
  float_str := fun _ => "128.7";
  cuda_is_available := false;
  new_separator := fun _ _ d => (Ok tt, d);
  separate_audio_file := Demo.separate;
  samplerate := fun _ => 44100%Z;
  save_audio := Demo.save unwritable
|}.

End Gone.

(* ===================================================================== *)
(** ** Specification vocabulary *)

(** The 24 labels: twelve pitch classes, two modes. *)
Definition labels : list string :=
  flat_map (fun k => [k ++ " major"; k ++ " minor"]) keys.

(** [label.endswith(suf)] *)
Definition ends_with (suf label : string) : bool :=
  (String.length suf <=? String.length label)%nat &&
  String.eqb (substring (String.length label - String.length suf)
                        (String.length suf) label) suf.

Section Vocabulary.
Context {R : Type} `{Scalar R}.

(** The value of the left side and of the right side of the comparison
    of line 63. *)
Definition max_major (c : list R) : result R := rbind (major_scores c) py_max.
Definition max_minor (c : list R) : result R := rbind (minor_scores c) py_max.

(** The claim's words for a score. The template rotated by [i] has at pitch
    class [j] the entry that the template has at [(j - i) mod 12]; the score
    of rotation [i] is the sum over the twelve pitch classes [j], from C to
    B and starting at zero, of that entry times the chroma bin [j]. *)
Definition rotated_entry (template : list Z) (i j : nat) : Z :=
  nth ((j + 12 - i) mod 12) template 0%Z.

Definition template_score (template : list Z) (i : nat) (c : list R) : R :=
  fold_left
    (fun acc j =>
       s_add acc (s_mul (s_of_int (rotated_entry template i j))
                        (nth j c (s_of_int 0))))
    (seq 0 12) (s_of_int 0).

(** [r] is the lowest index at which [l] is maximal: the element there is
    at least every element, and no earlier element is at least it. *)
Definition is_first_max (l : list R) (r : nat) : Prop :=
  exists xr, nth_error l r = Some xr /\
    Forall (fun x => s_le x xr = true) l /\
    Forall (fun x => s_le xr x = false) (firstn r l).
End Vocabulary.

(** [SFcompare] orders the non-NaN values as their ranks, compared
    lexicographically: sign class first, then exponent, then mantissa. *)
Definition rank (x : spec_float) : Z * Z * Z :=
  match x with
  | S754_infinity true => (-2, 0, 0)
  | S754_finite true m e => (-1, - e, - Zpos m)
  | S754_zero _ | S754_nan => (0, 0, 0)
  | S754_finite false m e => (1, e, Zpos m)
  | S754_infinity false => (2, 0, 0)
  end%Z.

Definition lex_le (a b : Z * Z * Z) : Prop :=
  match a, b with
  | (a1, a2, a3), (b1, b2, b3) =>
      (a1 < b1 \/ (a1 = b1 /\ (a2 < b2 \/ (a2 = b2 /\ a3 <= b3))))%Z
  end.


(** The number a finite binary64 with mantissa [m] and exponent [e] stands
    for, up to its sign: m * 2^e. *)
Definition SF_value (m : positive) (e : Z) : Q := inject_Z (Zpos m) * 2 ^ e.

Section PersistenceVocabulary.
Context {R : Type} (E : Env R).

(** What the handler of lines 92-98 prints for the exception [e] raised
    while writing [out], in the state [d] the failed write left: the
    message, the working directory [cwd], the output folder, the target
    path, and whether the directory [parent] exists and is writable. *)
Definition failure_report (source output_folder out parent : string) (e : exn)
    (cwd : string) (d : fs E) : list event :=
  [Print ("Error saving " ++ source ++ ": " ++ exn_msg e);
   Print ("Current working directory: " ++ cwd);
   Print ("Output folder: " ++ output_folder);
   Print ("File path: " ++ out);
   Print ("File path exists: " ++ str_of_bool (path_exists E parent d));
   Print ("File path writable: " ++ str_of_bool (access_w E parent d))].


(** No write is interrupted from outside [Exception] (KeyboardInterrupt,
    SystemExit). *)
Definition writes_raise_only_exceptions (sep : separator E)
    (output_folder : string) (sources : list (string * audio E)) : Prop :=
  forall source a d cls msg,
    In (source, a) sources ->
    fst (save_audio E a (os_path_join output_folder (source ++ ".wav"))
                    (samplerate E sep) d)
    <> Raise (BaseException cls msg).

(** [os.getcwd()] returns in every state. *)
Definition cwd_is_there : Prop := forall d, exists cwd, getcwd E d = Ok cwd.

End PersistenceVocabulary.

(* ===================================================================== *)
(** ** Vocabulary of the further properties *)


(** The sixteen spellings of "exit" in upper and lower case. *)
Definition exit_tokens : list string :=
  flat_map (fun e =>
    flat_map (fun x =>
      flat_map (fun i =>
        map (fun t => String e (String x (String i (String t EmptyString))))
            ["t"; "T"]%char)
        ["i"; "I"]%char)
      ["x"; "X"]%char)
    ["e"; "E"]%char.

(** Collaborators that fail in further ways: the URL ["private"] makes the
    downloader raise, ["talk"] is fetched as an .opus file, the tempo of ["inputs/still.mp3"] is NaN, the
    directory ["outputs/locked_D minor_128"] cannot be created, and writing
    ["out/other.wav"] is interrupted from the keyboard. *)
Module Faulty.

Definition download (url outtmpl : string) (d : list string)
  : result string * list string :=
  if String.eqb url "private"
  then (Raise (Exception "DownloadError" "video unavailable"), d)
  else if String.eqb url "talk"
  then (Ok "inputs/talk.opus", "inputs/talk.mp3" :: d)
  else Demo.download url outtmpl d.

Definition tempo (w : string) : result spec_float :=
  if String.eqb w "inputs/still.mp3" then Ok S754_nan else Ok Demo.bpm_128_7.

Definition mkdirs (p : string) (d : list string) : result unit * list string :=
  if String.eqb p "outputs/locked_D minor_128"
  then (Raise (Exception "PermissionError" "permission denied"), d)
  else (Ok tt, p :: d).

Definition save (a : nat) (out : string) (sr : Z) (d : list string)
  : result unit * list string :=
  if String.eqb out "out/other.wav"
  then (Raise (BaseException "KeyboardInterrupt" ""), d)
  else (Ok tt, out :: d).

Definition env : Env spec_float := {|
  fs := list string;
  waveform := string;
  audio := nat;
  separator := unit;
  ydl_download := download;
  path_exists := Demo.exists_in;
  makedirs := mkdirs;
  getcwd := fun _ => Ok "/work";
  access_w := fun p d => Demo.exists_in p d;
  librosa_load := Demo.load;
  beat_track := tempo;
  chroma_mean := fun _ => Ok Demo.chroma_dm;
  float_str := fun x => if F64.isnan x then "nan" else "128.7";
  cuda_is_available := true;
  new_separator := fun _ _ d => (Ok tt, d);
  separate_audio_file := Demo.separate;
  samplerate := fun _ => 44100%Z;
  save_audio := save
|}.

End Faulty.

(** The events that are attempts to write a stem. *)
Definition is_save_audio (ev : event) : bool :=
  match ev with SaveAudio _ _ _ => true | _ => false end.

(** [sub in s] *)
Fixpoint contains (sub s : string) : bool :=
  match s with
  | EmptyString => prefix sub s
  | String _ s' => prefix sub s || contains sub s'
  end.

(* ===================================================================== *)
(** ** The model at work *)

Example roll_by_one :
  np_roll major_profile 1 = [1; 1; 0; 1; 0; 1; 1; 0; 1; 0; 1; 0]%Z.
Proof. reflexivity. Qed.

Example key_of_silence : estimate_key (repeat F64.zero 12) = Ok "C minor".
Proof. vm_compute. reflexivity. Qed.

Example key_of_d_f_a : estimate_key Demo.chroma_dm = Ok "D minor".
Proof. vm_compute. reflexivity. Qed.

Example paths_and_strings :
  os_path_join "outputs" "Song_D minor_128" = "outputs/Song_D minor_128" /\
  os_path_basename "inputs/Track.mp3" = "Track.mp3" /\
  os_path_splitext_root "Track.mp3" = "Track" /\
  os_path_splitext_root "..a.b" = "..a" /\
  os_path_splitext_root "...b" = "...b" /\
  os_path_dirname "outputs/x/vocals.wav" = "outputs/x" /\
  os_path_dirname "a//b" = "a" /\
  os_path_dirname "//b" = "//" /\
  os_path_dirname "vocals.wav" = "" /\
  py_replace ".webm" ".mp3" "a.webm.m4a" = "a.mp3.m4a" /\
  lower "ExIt" = "exit" /\
  str_of_int 128 = "128" /\ str_of_int (-5) = "-5" /\ str_of_int 0 = "0".
Proof. vm_compute. repeat split. Qed.

Example end_to_end_run :
  main (Demo.env []) ["Song"; "EXIT"; "unread"] []
  = (Ok tt,
     ["outputs/Song_D minor_128/vocals.wav"; "outputs/Song_D minor_128/other.wav";
      "outputs/Song_D minor_128/bass.wav"; "outputs/Song_D minor_128/drums.wav";
      "outputs/Song_D minor_128"; "outputs/Song_D minor_128";
      "inputs/Song.mp3"; "outputs"; "inputs"],
     [Makedirs "inputs"; Makedirs "outputs";
      Input prompt "Song"; Download "Song" "inputs/%(title)s.%(ext)s";
      Load "inputs/Song.mp3"; BeatTrack; ChromaStft;
      Print "Detected Key: D minor, BPM: 128.7";
      Makedirs "outputs/Song_D minor_128";
      Print "Splitting audio: inputs/Song.mp3";
      NewSeparator "htdemucs_ft" "cpu"; Separate "inputs/Song.mp3";
      Makedirs "outputs/Song_D minor_128";
      SaveAudio "drums" "outputs/Song_D minor_128/drums.wav" 44100;
      Print "Saved drums to outputs/Song_D minor_128/drums.wav";
      SaveAudio "bass" "outputs/Song_D minor_128/bass.wav" 44100;
      Print "Saved bass to outputs/Song_D minor_128/bass.wav";
      SaveAudio "other" "outputs/Song_D minor_128/other.wav" 44100;
      Print "Saved other to outputs/Song_D minor_128/other.wav";
      SaveAudio "vocals" "outputs/Song_D minor_128/vocals.wav" 44100;
      Print "Saved vocals to outputs/Song_D minor_128/vocals.wav";
      Print "Audio splitting completed.";
      Input prompt "EXIT"]).
Proof. vm_compute. reflexivity. Qed.

(* ===================================================================== *)
(** ** The key estimator: it runs, and what it returns *)

Lemma mapR_total {A B} (f : A -> result B) (g : A -> B) (l : list A) :
  (forall a, In a l -> f a = Ok (g a)) -> mapR f l = Ok (map g l).
Proof.
  induction l as [|a l IH]; intros Hf; simpl.
  - reflexivity.
  - rewrite (Hf a (or_introl eq_refl)).
    rewrite IH by (intros b Hb; apply Hf; right; exact Hb).
    reflexivity.
Qed.

Lemma mapR_length {A B} (f : A -> result B) (l : list A) :
  forall bs, mapR f l = Ok bs -> List.length bs = List.length l.
Proof.
  induction l as [|a l IH]; simpl; intros bs Hbs.
  - injection Hbs as <-. reflexivity.
  - destruct (f a); [|discriminate].
    destruct (mapR f l) as [bs'|]; [|discriminate].
    injection Hbs as <-. simpl. f_equal. apply IH. reflexivity.
Qed.

Lemma np_roll_length {A} (a : list A) (i : nat) :
  List.length (np_roll a i) = List.length a.
Proof.
  unfold np_roll. rewrite length_app, length_skipn, length_firstn. lia.
Qed.

Section EstimatorFacts.
Context {R : Type} `{Scalar R}.

Lemma np_dot_ok (a : list Z) (b : list R) :
  List.length a = List.length b ->
  np_dot a b = Ok (dot_acc (s_of_int 0) a b).
Proof.
  intros Hlen. unfold np_dot. rewrite Hlen, Nat.eqb_refl. reflexivity.
Qed.

Lemma scores_ok (p : list Z) (c : list R) :
  List.length p = List.length c ->
  scores p c
  = Ok (map (fun i => dot_acc (s_of_int 0) (np_roll p i) c) (seq 0 12)).
Proof.
  intros Hlen. unfold scores. apply mapR_total.
  intros i _. apply np_dot_ok. rewrite np_roll_length. exact Hlen.
Qed.

Lemma scores_length (p : list Z) (c l : list R) :
  scores p c = Ok l -> List.length l = 12%nat.
Proof.
  unfold scores. intros Hl. apply mapR_length in Hl. exact Hl.
Qed.

Lemma scores_inv (p : list Z) (c l : list R) :
  List.length p = 12%nat -> scores p c = Ok l ->
  List.length c = 12%nat /\
  l = map (fun i => dot_acc (s_of_int 0) (np_roll p i) c) (seq 0 12).
Proof.
  intros Hp Hl.
  destruct (Nat.eq_dec (List.length p) (List.length c)) as [E|E].
  - rewrite (scores_ok p c E) in Hl. split; congruence.
  - exfalso. unfold scores in Hl.
    change (seq 0 12) with (0%nat :: seq 1 11) in Hl. cbn [mapR] in Hl.
    unfold np_dot at 1 in Hl. rewrite np_roll_length in Hl.
    apply Nat.eqb_neq in E. rewrite E in Hl. discriminate.
Qed.

Lemma argmax_from_bound (l : list R) :
  forall mp idx i, (idx < i)%nat ->
    (argmax_from mp idx i l < i + List.length l)%nat.
Proof.
  induction l as [|x l IH]; intros mp idx i Hi; simpl.
  - lia.
  - destruct (negb (s_le x mp)).
    + destruct (s_isnan x); [lia|].
      specialize (IH x i (S i)). lia.
    + specialize (IH mp idx (S i)). lia.
Qed.

Lemma np_argmax_bound (l : list R) (r : nat) :
  np_argmax l = Ok r -> (r < List.length l)%nat.
Proof.
  destruct l as [|x l]; simpl; [discriminate|].
  intros Hr. injection Hr as <-.
  destruct (s_isnan x); [lia|].
  pose proof (argmax_from_bound l x 0 1). lia.
Qed.

Lemma np_argmax_ok (l : list R) :
  l <> [] -> exists r, np_argmax l = Ok r.
Proof.
  destruct l as [|x l]; [congruence|]. intros _. simpl. eauto.
Qed.

Lemma py_max_ok (l : list R) :
  l <> [] -> exists m, py_max l = Ok m.
Proof.
  destruct l as [|x l]; [congruence|]. intros _. simpl. eauto.
Qed.

Lemma py_index_keys (r : nat) :
  (r < 12)%nat -> exists k, In k keys /\ py_index keys r = Ok k.
Proof.
  intros Hr. unfold py_index.
  destruct (nth_error keys r) as [k|] eqn:Hk.
  - exists k. split; [eapply nth_error_In; exact Hk | reflexivity].
  - apply nth_error_None in Hk. simpl in Hk. lia.
Qed.

(** Every step of the estimator succeeds on a 12-bin chroma mean, and the
    label is built from the branch taken at line 63. *)
Lemma estimate_key_run (c : list R) :
  List.length c = 12%nat ->
  exists major minor bM bm M m kM km,
    major_scores c = Ok major /\ minor_scores c = Ok minor /\
    np_argmax major = Ok bM /\ np_argmax minor = Ok bm /\
    py_max major = Ok M /\ py_max minor = Ok m /\
    py_index keys bM = Ok kM /\ py_index keys bm = Ok km /\
    In kM keys /\ In km keys /\
    estimate_key c
    = Ok (if s_gt M m then kM ++ " major" else km ++ " minor").
Proof.
  intros Hc.
  assert (HM : exists major, major_scores c = Ok major)
    by (eexists; apply scores_ok; rewrite Hc; reflexivity).
  assert (Hm : exists minor, minor_scores c = Ok minor)
    by (eexists; apply scores_ok; rewrite Hc; reflexivity).
  destruct HM as [major HM], Hm as [minor Hm].
  pose proof (scores_length _ _ _ HM) as LM.
  pose proof (scores_length _ _ _ Hm) as Lm.
  assert (NM : major <> []) by (intros ->; discriminate).
  assert (Nm : minor <> []) by (intros ->; discriminate).
  destruct (np_argmax_ok _ NM) as [bM HbM], (np_argmax_ok _ Nm) as [bm Hbm].
  destruct (py_max_ok _ NM) as [M HMx], (py_max_ok _ Nm) as [m Hmx].
  pose proof (np_argmax_bound _ _ HbM) as BM. rewrite LM in BM.
  pose proof (np_argmax_bound _ _ Hbm) as Bm. rewrite Lm in Bm.
  destruct (py_index_keys _ BM) as [kM [IM HkM]].
  destruct (py_index_keys _ Bm) as [km [Im Hkm]].
  exists major, minor, bM, bm, M, m, kM, km.
  repeat (split; [assumption|]).
  unfold estimate_key.
  rewrite HM, Hm; simpl. rewrite HbM, Hbm; simpl. rewrite HMx, Hmx; simpl.
  destruct (s_gt M m); [rewrite HkM | rewrite Hkm]; reflexivity.
Qed.

End EstimatorFacts.

Lemma labels_major (k : string) : In k keys -> In (k ++ " major") labels.
Proof.
  intros Hk. unfold labels. apply in_flat_map. exists k. split; [exact Hk|].
  left. reflexivity.
Qed.

Lemma labels_minor (k : string) : In k keys -> In (k ++ " minor") labels.
Proof.
  intros Hk. unfold labels. apply in_flat_map. exists k. split; [exact Hk|].
  right. left. reflexivity.
Qed.

(* ===================================================================== *)
(** ** The comparison of line 63 on binary64 *)

Lemma SFcompare_antisym (x y : spec_float) :
  SFcompare y x = option_map CompOpp (SFcompare x y).
Proof.
  destruct x as [sx|sx| |sx mx ex], y as [sy|sy| |sy my ey]; simpl;
    try reflexivity;
    try (destruct sx; reflexivity); try (destruct sy; reflexivity);
    try (destruct sx, sy; reflexivity).
  rewrite (Z.compare_antisym ex ey).
  replace (PosDef.Pos.compare_cont Eq my mx)
    with (CompOpp (PosDef.Pos.compare_cont Eq mx my))
    by (symmetry; exact (Pos.compare_antisym mx my)).
  destruct sx, sy; simpl; try reflexivity;
    destruct (ex ?= ey)%Z; simpl; try reflexivity;
    rewrite CompOpp_involutive; reflexivity.
Qed.

(** [M == m] excludes [M > m]. *)
Lemma F64_eq_not_gt (x y : spec_float) :
  s_eq x y = true -> s_gt x y = false.
Proof.
  simpl. unfold F64.gt, SFeqb, SFltb. rewrite (SFcompare_antisym y x).
  destruct (SFcompare y x) as [[| |]|]; simpl; congruence.
Qed.

Lemma ends_with_minor (k : string) :
  In k keys -> ends_with "minor" (k ++ " minor") = true.
Proof.
  intros Hk. simpl in Hk.
  repeat (destruct Hk as [<- | Hk]; [reflexivity|]). contradiction.
Qed.

(** C1, as the program has it. When the maximum of the major scores equals
    the maximum of the minor scores, the comparison [max(major_scores) >
    max(minor_scores)] is false and the [else] branch is taken: the label
    ends in "minor". *)
Theorem tie_break_is_minor (c : list spec_float) (M m : spec_float) :
  List.length c = 12%nat ->
  max_major c = Ok M -> max_minor c = Ok m -> s_eq M m = true ->
  exists k, In k keys /\ estimate_key c = Ok (k ++ " minor") /\
            ends_with "minor" (k ++ " minor") = true.
Proof.
  intros Hc HM Hm Heq.
  destruct (estimate_key_run c Hc)
    as (major & minor & bM & bm & M' & m' & kM & km &
        EM & Em & _ & _ & XM & Xm & _ & _ & _ & Im & Hrun).
  unfold max_major in HM. rewrite EM in HM. simpl in HM.
  unfold max_minor in Hm. rewrite Em in Hm. simpl in Hm.
  assert (M' = M) by congruence. assert (m' = m) by congruence. subst M' m'.
  rewrite (F64_eq_not_gt M m Heq) in Hrun.
  exists km. split; [exact Im|]. split; [exact Hrun|].
  apply ends_with_minor. exact Im.
Qed.

Lemma tie_break_is_minor_witness :
  s_eq F64.zero F64.zero = true /\
  exists k, estimate_key (repeat F64.zero 12) = Ok (k ++ " minor").
Proof.
  split; [reflexivity|].
  destruct (tie_break_is_minor (repeat F64.zero 12) F64.zero F64.zero
              eq_refl eq_refl eq_refl eq_refl) as [k [_ [Hk _]]].
  exists k. exact Hk.
Defined.

(** C1, as stated, fails on silence: all 24 scores are 0.0, the two maxima
    are equal, and the label is "C minor". *)
Lemma tie_break_major_counterexample :
  let c := repeat F64.zero 12 in
  max_major c = Ok F64.zero /\ max_minor c = Ok F64.zero /\
  s_eq F64.zero F64.zero = true /\
  estimate_key c = Ok "C minor" /\
  ends_with "major" "C minor" = false.
Proof. vm_compute. repeat split. Qed.

(* ===================================================================== *)
(** ** [np.argmax] returns the first maximum *)

Section FirstMaximum.
Context {R : Type} `{Scalar R}.

(** The scalars on which [<=] is a total preorder (for binary64: all but
    NaN). *)
Variable comparable : R -> Prop.
Hypothesis comparable_not_nan : forall x, comparable x -> s_isnan x = false.
Hypothesis le_total :
  forall x y, comparable x -> comparable y ->
              s_le x y = true \/ s_le y x = true.
Hypothesis le_trans :
  forall x y z, comparable x -> comparable y -> comparable z ->
                s_le x y = true -> s_le y z = true -> s_le x z = true.

(** The invariant of the scan: [seen] is the part already visited, [mp] its
    first maximum, at index [idx]. *)
Lemma argmax_from_first_max (l : list R) :
  forall (seen : list R) (mp : R) (idx : nat),
    Forall comparable seen -> Forall comparable l ->
    nth_error seen idx = Some mp ->
    Forall (fun x => s_le x mp = true) seen ->
    Forall (fun x => s_le mp x = false) (firstn idx seen) ->
    is_first_max (seen ++ l)%list (argmax_from mp idx (List.length seen) l).
Proof.
  induction l as [|x l IH]; intros seen mp idx Gs Gl Hidx Hmax Hlow.
  - simpl. rewrite app_nil_r. exists mp. auto.
  - simpl.
    assert (Hin : In mp seen) by (eapply nth_error_In; exact Hidx).
    assert (Gmp : comparable mp) by exact (proj1 (Forall_forall _ _) Gs mp Hin).
    assert (Gx : comparable x) by (inversion Gl; assumption).
    assert (Gl' : Forall comparable l) by (inversion Gl; assumption).
    assert (Gs' : Forall comparable (seen ++ [x])%list)
      by (apply Forall_app; split; [exact Gs | constructor; [exact Gx | constructor]]).
    assert (Hlt : (idx < List.length seen)%nat)
      by (apply nth_error_Some; congruence).
    replace (seen ++ x :: l)%list with ((seen ++ [x]) ++ l)%list
      by (rewrite <- app_assoc; reflexivity).
    replace (S (List.length seen)) with (List.length (seen ++ [x])%list)
      by (rewrite length_app; simpl; lia).
    destruct (s_le x mp) eqn:Hx; simpl.
    + (* x <= mp: the maximum stays *)
      apply IH; try assumption.
      * rewrite nth_error_app1 by exact Hlt. exact Hidx.
      * apply Forall_app. split; [exact Hmax | constructor; [exact Hx | constructor]].
      * rewrite firstn_app.
        replace (idx - List.length seen)%nat with 0%nat by lia.
        simpl. rewrite app_nil_r. exact Hlow.
    + (* not (x <= mp): x is the new maximum, at the current index *)
      rewrite (comparable_not_nan x Gx).
      assert (Hmx : s_le mp x = true)
        by (destruct (le_total x mp Gx Gmp) as [C|C]; [congruence | exact C]).
      replace (List.length seen) with (List.length seen + 0)%nat at 1 by lia.
      apply IH; try assumption.
      * rewrite nth_error_app2 by lia.
        replace (List.length seen + 0 - List.length seen)%nat with 0%nat by lia.
        reflexivity.
      * apply Forall_app. split.
        -- apply Forall_forall. intros y Hy.
           assert (Gy : comparable y) by exact (proj1 (Forall_forall _ _) Gs y Hy).
           apply (le_trans y mp x Gy Gmp Gx); [|exact Hmx].
           exact (proj1 (Forall_forall _ _) Hmax y Hy).
        -- constructor; [|constructor].
           destruct (le_total x x Gx Gx); assumption.
      * rewrite firstn_app.
        replace (List.length seen + 0 - List.length seen)%nat with 0%nat by lia.
        simpl. rewrite app_nil_r, Nat.add_0_r, firstn_all.
        apply Forall_forall. intros y Hy.
        assert (Gy : comparable y) by exact (proj1 (Forall_forall _ _) Gs y Hy).
        destruct (s_le x y) eqn:Hxy; [|reflexivity].
        assert (s_le y mp = true) by exact (proj1 (Forall_forall _ _) Hmax y Hy).
        assert (s_le x mp = true) by (apply (le_trans x y mp); assumption).
        congruence.
Qed.

Lemma np_argmax_first_max (l : list R) (r : nat) :
  Forall comparable l -> np_argmax l = Ok r -> is_first_max l r.
Proof.
  destruct l as [|x l]; simpl; [discriminate|].
  intros Gl Hr. injection Hr as <-.
  assert (Gx : comparable x) by (inversion Gl; assumption).
  rewrite (comparable_not_nan x Gx).
  apply (argmax_from_first_max l [x] x 0).
  - constructor; [exact Gx | constructor].
  - inversion Gl; assumption.
  - reflexivity.
  - constructor; [|constructor]. destruct (le_total x x Gx Gx); assumption.
  - constructor.
Qed.

End FirstMaximum.

(** *** [<=] on binary64 without NaN *)

Lemma SFleb_rank (x y : spec_float) :
  F64.isnan x = false -> F64.isnan y = false ->
  (SFleb x y = true <-> lex_le (rank x) (rank y)).
Proof.
  destruct x as [[]|[]| |[] mx ex], y as [[]|[]| |[] my ey];
    simpl; intros Hx Hy; try discriminate; unfold SFleb; simpl;
    try (split; [intros _; lia | reflexivity]);
    try (split; [discriminate | intros; lia]);
    change (PosDef.Pos.compare_cont Eq mx my) with (Pos.compare mx my);
    destruct (Z.compare_spec ex ey); subst;
    try (split; [intros _; lia | reflexivity]);
    try (split; [discriminate | intros; lia]);
    destruct (Pos.compare_spec mx my); subst; simpl;
    try (split; [intros _; lia | reflexivity]);
    try (split; [discriminate | intros; lia]).
Qed.

Lemma lex_le_trans (a b c : Z * Z * Z) : lex_le a b -> lex_le b c -> lex_le a c.
Proof.
  destruct a as [[a1 a2] a3], b as [[b1 b2] b3], c as [[c1 c2] c3].
  unfold lex_le. lia.
Qed.

Lemma lex_le_total (a b : Z * Z * Z) : lex_le a b \/ lex_le b a.
Proof.
  destruct a as [[a1 a2] a3], b as [[b1 b2] b3]. unfold lex_le. lia.
Qed.

Lemma F64_le_total (x y : spec_float) :
  s_isnan x = false -> s_isnan y = false ->
  s_le x y = true \/ s_le y x = true.
Proof.
  simpl. intros Hx Hy.
  destruct (lex_le_total (rank x) (rank y)) as [L|L];
    [left | right]; apply SFleb_rank; assumption.
Qed.

Lemma F64_le_trans (x y z : spec_float) :
  s_isnan x = false -> s_isnan y = false -> s_isnan z = false ->
  s_le x y = true -> s_le y z = true -> s_le x z = true.
Proof.
  simpl. intros Hx Hy Hz Hxy Hyz.
  apply SFleb_rank; try assumption.
  apply (lex_le_trans _ (rank y)); apply SFleb_rank; assumption.
Qed.

(** C10. When no score is NaN, the rotation chosen within each mode is the
    lowest index at which that mode's 12 scores are maximal (every score is
    [<=] the chosen one and no earlier score is [>=] it), and the returned
    pitch class is the [keys] entry at that index for the mode returned. *)
Theorem argmax_picks_lowest_rotation (c major minor : list spec_float) :
  List.length c = 12%nat ->
  major_scores c = Ok major -> minor_scores c = Ok minor ->
  Forall (fun x => s_isnan x = false) major ->
  Forall (fun x => s_isnan x = false) minor ->
  exists bM bm M m kM km,
    np_argmax major = Ok bM /\ is_first_max major bM /\
    np_argmax minor = Ok bm /\ is_first_max minor bm /\
    py_max major = Ok M /\ py_max minor = Ok m /\
    nth_error keys bM = Some kM /\ nth_error keys bm = Some km /\
    estimate_key c = Ok (if s_gt M m then kM ++ " major" else km ++ " minor").
Proof.
  intros Hc HM Hm NM Nm.
  destruct (estimate_key_run c Hc)
    as (major' & minor' & bM & bm & M & m & kM & km &
        EM & Em & HbM & Hbm & XM & Xm & HkM & Hkm & _ & _ & Hrun).
  assert (major' = major) by congruence. assert (minor' = minor) by congruence.
  subst major' minor'.
  exists bM, bm, M, m, kM, km.
  unfold py_index in HkM, Hkm.
  destruct (nth_error keys bM) as [kM'|]; [|discriminate].
  destruct (nth_error keys bm) as [km'|]; [|discriminate].
  injection HkM as ->. injection Hkm as ->.
  repeat split; try assumption; try reflexivity.
  - apply (np_argmax_first_max (fun x => s_isnan x = false)); auto.
    + apply F64_le_total.
    + apply F64_le_trans.
  - apply (np_argmax_first_max (fun x => s_isnan x = false)); auto.
    + apply F64_le_total.
    + apply F64_le_trans.
Qed.

Lemma argmax_picks_lowest_rotation_witness :
  exists minor,
    minor_scores Demo.chroma_dm = Ok minor /\
    nth_error minor 2 = nth_error minor 7 /\
    nth_error minor 2 = nth_error minor 9 /\
    is_first_max minor 2 /\
    estimate_key Demo.chroma_dm = Ok "D minor".
Proof.
  pose (major := map (fun i => dot_acc (s_of_int 0) (np_roll major_profile i)
                                 Demo.chroma_dm) (seq 0 12)).
  pose (minor := map (fun i => dot_acc (s_of_int 0) (np_roll minor_profile i)
                                 Demo.chroma_dm) (seq 0 12)).
  assert (HM : major_scores Demo.chroma_dm = Ok major)
    by (apply scores_ok; reflexivity).
  assert (Hm : minor_scores Demo.chroma_dm = Ok minor)
    by (apply scores_ok; reflexivity).
  assert (NM : Forall (fun x => s_isnan x = false) major)
    by (vm_compute; repeat constructor).
  assert (Nm : Forall (fun x => s_isnan x = false) minor)
    by (vm_compute; repeat constructor).
  destruct (argmax_picks_lowest_rotation Demo.chroma_dm major minor
              eq_refl HM Hm NM Nm)
    as (bM & bm & M & m & kM & km & _ & _ & Hbm & Fm & _ & _ & _ & _ & _).
  assert (E : np_argmax minor = Ok 2%nat) by (vm_compute; reflexivity).
  assert (bm = 2%nat) by congruence. subst bm.
  exists minor. split; [exact Hm|].
  split; [vm_compute; reflexivity|].
  split; [vm_compute; reflexivity|].
  split; [exact Fm|].
  vm_compute. reflexivity.
Defined.

(* ===================================================================== *)
(** ** Template matching *)



(** Rotation 0 is the template as written, anchored at C; rotation 1 moves
    every entry one pitch class up, the entry of B coming round to C. *)
Example template_scores_written_out
    (c0 c1 c2 c3 c4 c5 c6 c7 c8 c9 c10 c11 : Q) :
  let c := [c0; c1; c2; c3; c4; c5; c6; c7; c8; c9; c10; c11] in
  template_score major_profile 0 c
  == c0 + c2 + c4 + c5 + c7 + c9 + c11 /\
  template_score major_profile 1 c
  == c1 + c3 + c5 + c6 + c8 + c10 + c0 /\
  template_score minor_profile 0 c
  == c0 + c2 + c3 + c5 + c7 + c8 + c10 /\
  template_score minor_profile 9 c
  == c9 + c11 + c0 + c2 + c4 + c5 + c7.
Proof.
  intros c. repeat split; cbn -[Qplus Qmult inject_Z]; ring.
Qed.




(* ===================================================================== *)
(** ** The two templates name the same scales *)

(** The natural minor scale on the sixth degree of a major scale has the
    same pitch classes: rotating the minor template by [i + 9] gives the
    major template rotated by [i]. *)
Lemma relative_minor_template (i : nat) :
  (i < 12)%nat ->
  np_roll minor_profile ((i + 9) mod 12) = np_roll major_profile i.
Proof.
  intros Hi.
  do 12 (destruct i as [|i]; [reflexivity|]). lia.
Qed.

Lemma relative_major_template (j : nat) :
  (j < 12)%nat ->
  np_roll major_profile ((j + 3) mod 12) = np_roll minor_profile j.
Proof.
  intros Hj.
  do 12 (destruct j as [|j]; [reflexivity|]). lia.
Qed.

Section SameScores.
Context {R : Type} `{Scalar R}.

Variable comparable : R -> Prop.
Hypothesis le_total :
  forall x y, comparable x -> comparable y ->
              s_le x y = true \/ s_le y x = true.
Hypothesis le_trans :
  forall x y z, comparable x -> comparable y -> comparable z ->
                s_le x y = true -> s_le y z = true -> s_le x z = true.
Hypothesis gt_not_le :
  forall x y, comparable x -> comparable y -> s_gt x y = negb (s_le x y).

Lemma max_from_is_max (l : list R) :
  forall m, comparable m -> Forall comparable l ->
    (max_from m l = m \/ In (max_from m l) l) /\
    s_le m (max_from m l) = true /\
    Forall (fun x => s_le x (max_from m l) = true) l.
Proof.
  induction l as [|x l IH]; intros m Gm Gl; simpl.
  - repeat split; [left; reflexivity | | constructor].
    destruct (le_total m m Gm Gm); assumption.
  - assert (Gx : comparable x) by (inversion Gl; assumption).
    assert (Gl' : Forall comparable l) by (inversion Gl; assumption).
    rewrite (gt_not_le x m Gx Gm).
    destruct (s_le x m) eqn:Hxm; simpl.
    + destruct (IH m Gm Gl') as (Hin & Hm & Hall).
      repeat split.
      * destruct Hin as [-> | Hin]; [left; reflexivity | right; right; exact Hin].
      * exact Hm.
      * constructor; [|exact Hall].
        assert (Gr : comparable (max_from m l)).
        { destruct Hin as [-> | Hin]; [exact Gm|].
          exact (proj1 (Forall_forall _ _) Gl' _ Hin). }
        exact (le_trans x m _ Gx Gm Gr Hxm Hm).
    + destruct (IH x Gx Gl') as (Hin & Hx & Hall).
      assert (Gr : comparable (max_from x l)).
      { destruct Hin as [-> | Hin]; [exact Gx|].
        exact (proj1 (Forall_forall _ _) Gl' _ Hin). }
      assert (Hmx : s_le m x = true)
        by (destruct (le_total x m Gx Gm) as [C|C]; [congruence | exact C]).
      repeat split.
      * right. destruct Hin as [-> | Hin]; [left; reflexivity | right; exact Hin].
      * exact (le_trans m x _ Gm Gx Gr Hmx Hx).
      * constructor; assumption.
Qed.

Lemma py_max_is_max (l : list R) (M : R) :
  Forall comparable l -> py_max l = Ok M ->
  In M l /\ Forall (fun x => s_le x M = true) l.
Proof.
  destruct l as [|x l]; simpl; [discriminate|].
  intros Gl HM. injection HM as <-.
  assert (Gx : comparable x) by (inversion Gl; assumption).
  assert (Gl' : Forall comparable l) by (inversion Gl; assumption).
  destruct (max_from_is_max l x Gx Gl') as (Hin & Hx & Hall).
  split.
  - destruct Hin as [-> | Hin]; [left; reflexivity | right; exact Hin].
  - constructor; assumption.
Qed.

(** The major scores and the minor scores are the same twelve numbers. *)
Lemma major_scores_in_minor (c major minor : list R) (x : R) :
  major_scores c = Ok major -> minor_scores c = Ok minor ->
  In x major -> In x minor.
Proof.
  intros HM Hm Hx.
  destruct (scores_inv major_profile c major eq_refl HM) as [_ ->].
  destruct (scores_inv minor_profile c minor eq_refl Hm) as [_ ->].
  apply in_map_iff in Hx. destruct Hx as (i & <- & Hi).
  apply in_seq in Hi.
  apply in_map_iff. exists ((i + 9) mod 12)%nat. split.
  - rewrite relative_minor_template by lia. reflexivity.
  - apply in_seq. pose proof (Nat.mod_upper_bound (i + 9) 12). lia.
Qed.

Lemma minor_scores_in_major (c major minor : list R) (x : R) :
  major_scores c = Ok major -> minor_scores c = Ok minor ->
  In x minor -> In x major.
Proof.
  intros HM Hm Hx.
  destruct (scores_inv major_profile c major eq_refl HM) as [_ ->].
  destruct (scores_inv minor_profile c minor eq_refl Hm) as [_ ->].
  apply in_map_iff in Hx. destruct Hx as (j & <- & Hj).
  apply in_seq in Hj.
  apply in_map_iff. exists ((j + 3) mod 12)%nat. split.
  - rewrite relative_major_template by lia. reflexivity.
  - apply in_seq. pose proof (Nat.mod_upper_bound (j + 3) 12). lia.
Qed.

(** Hence the two maxima never compare [>]. *)
Lemma major_max_not_greater (c major minor : list R) (M m : R) :
  major_scores c = Ok major -> minor_scores c = Ok minor ->
  Forall comparable major ->
  py_max major = Ok M -> py_max minor = Ok m ->
  s_gt M m = false.
Proof.
  intros HM Hm GM XM Xm.
  assert (Gm : Forall comparable minor).
  { apply Forall_forall. intros x Hx.
    apply (proj1 (Forall_forall _ _) GM).
    exact (minor_scores_in_major c major minor x HM Hm Hx). }
  destruct (py_max_is_max major M GM XM) as [IM _].
  destruct (py_max_is_max minor m Gm Xm) as [Im Am].
  assert (CM : comparable M) by exact (proj1 (Forall_forall _ _) GM M IM).
  assert (Cm : comparable m) by exact (proj1 (Forall_forall _ _) Gm m Im).
  rewrite (gt_not_le M m CM Cm).
  rewrite (proj1 (Forall_forall _ _) Am M
             (major_scores_in_minor c major minor M HM Hm IM)).
  reflexivity.
Qed.

End SameScores.

Lemma F64_gt_not_le (x y : spec_float) :
  s_isnan x = false -> s_isnan y = false -> s_gt x y = negb (s_le x y).
Proof.
  simpl. unfold F64.gt, SFltb, SFleb. rewrite (SFcompare_antisym x y).
  destruct x as [sx|sx| |sx mx ex], y as [sy|sy| |sy my ey];
    try discriminate; intros _ _;
    destruct (SFcompare _ _) as [[| |]|] eqn:E; simpl; try reflexivity;
    simpl in E; discriminate.
Qed.

(** On binary64 scores without NaN the comparison of line 63 is never true:
    the estimator answers with a minor key on every chroma mean. *)
Remark estimate_key_answers_minor (c major : list spec_float) :
  List.length c = 12%nat ->
  major_scores c = Ok major ->
  Forall (fun x => s_isnan x = false) major ->
  exists k, In k keys /\ estimate_key c = Ok (k ++ " minor").
Proof.
  intros Hc HM NM.
  destruct (estimate_key_run c Hc)
    as (major' & minor & bM & bm & M & m & kM & km &
        EM & Em & _ & _ & XM & Xm & _ & _ & _ & Im & Hrun).
  assert (major' = major) by congruence. subst major'.
  rewrite (major_max_not_greater (fun x => s_isnan x = false)
             F64_le_total F64_le_trans F64_gt_not_le
             c major minor M m EM Em NM XM Xm) in Hrun.
  exists km. split; assumption.
Qed.

(* ===================================================================== *)
(** ** Scaling the chroma mean *)

(** Two runs of the estimator whose scores compare alike take the same
    decisions. *)
Section Similar.
Context {R : Type} `{Scalar R}.

Variable sim : R -> R -> Prop.
Hypothesis sim_le :
  forall x x' y y', sim x x' -> sim y y' -> s_le x' y' = s_le x y.
Hypothesis sim_gt :
  forall x x' y y', sim x x' -> sim y y' -> s_gt x' y' = s_gt x y.
Hypothesis sim_nan : forall x x', sim x x' -> s_isnan x' = s_isnan x.






End Similar.

(** *** Exact arithmetic *)

Section ExactScaling.
Variable s : Q.
Hypothesis s_pos : 0 < s.




End ExactScaling.




(* ===================================================================== *)
(** ** The interactive loop *)

Section MonadFacts.
Context {S A B : Type}.

Lemma bind_ok (m : M S A) (k : A -> M S B) d a d1 t1 :
  m d = (Ok a, d1, t1) ->
  bind m k d = (let '(r, d2, t2) := k a d1 in (r, d2, (t1 ++ t2)%list)).
Proof. intros Hm. unfold bind. rewrite Hm. reflexivity. Qed.

Lemma bind_raise (m : M S A) (k : A -> M S B) d e d1 t1 :
  m d = (Raise e, d1, t1) -> bind m k d = (Raise e, d1, t1).
Proof. intros Hm. unfold bind. rewrite Hm. reflexivity. Qed.

(** Whatever follows, the events of the first computation come first. *)
Lemma bind_trace (m : M S A) (k : A -> M S B) d :
  exists t, snd (bind m k d) = (snd (m d) ++ t)%list.
Proof.
  unfold bind. destruct (m d) as [[[a|e] d1] t1]; simpl.
  - destruct (k a d1) as [[r d2] t2]. simpl. eauto.
  - exists []. rewrite app_nil_r. reflexivity.
Qed.
End MonadFacts.

Section LoopFacts.
Context {R : Type} `{Scalar R} (E : Env R).
Variables download_folder output_folder : string.

Lemma main_loop_cons (url : string) (rest : list string) (d : fs E) :
  main_loop E download_folder output_folder (url :: rest) d
  = match iteration E download_folder output_folder url d with
    | (Ok Break, d1, t1) => (Ok tt, d1, Input prompt url :: t1 ++ [])
    | (Ok Continue, d1, t1) =>
        match main_loop E download_folder output_folder rest d1 with
        | (r, d2, t2) => (r, d2, Input prompt url :: t1 ++ t2)
        end
    | (Raise e, d1, t1) => (Raise e, d1, Input prompt url :: t1)
    end%list.
Proof.
  cbn [main_loop]. unfold bind at 1. unfold emit at 1. unfold bind at 1.
  destruct (iteration E download_folder output_folder url d) as [[[c|e] d1] t1].
  - destruct c.
    + reflexivity.
    + destruct (main_loop E download_folder output_folder rest d1) as [[r d2] t2].
      reflexivity.
  - reflexivity.
Qed.

Lemma download_audio_trace (url : string) (d : fs E) :
  snd (download_audio E url download_folder d)
  = [Download url (os_path_join download_folder "%(title)s.%(ext)s")].
Proof.
  unfold download_audio, bind, call, ret.
  destruct (ydl_download E url _ d) as [[name|e] d1]; reflexivity.
Qed.

Lemma iteration_exit (url : string) (d : fs E) :
  lower url = "exit" ->
  iteration E download_folder output_folder url d = (Ok Break, d, []).
Proof. intros Hx. unfold iteration. rewrite Hx. reflexivity. Qed.

Lemma iteration_url (url : string) (d : fs E) :
  lower url <> "exit" ->
  exists t,
    snd (iteration E download_folder output_folder url d)
    = (Download url (os_path_join download_folder "%(title)s.%(ext)s") :: t).
Proof.
  intros Hx. unfold iteration.
  apply String.eqb_neq in Hx. rewrite Hx.
  match goal with
  | |- exists t, snd (bind ?m ?k d) = _ => destruct (bind_trace m k d) as [t Ht]
  end.
  exists t. rewrite download_audio_trace in Ht. exact Ht.
Qed.

End LoopFacts.

(** C8. An input whose lowercase form is "exit" ends the loop with success:
    nothing but the prompt happens, so no acquisition is attempted and the
    inputs after it are not read. Any other input is handed to the
    downloader as the URL, right after the prompt. *)
Theorem exit_ends_loop_else_url
    (R : Type) (SR : Scalar R) (E : Env R)
    (download_folder output_folder url : string) (rest : list string) (d : fs E) :
  (lower url = "exit" ->
   main_loop E download_folder output_folder (url :: rest) d
   = (Ok tt, d, [Input prompt url])) /\
  (lower url <> "exit" ->
   exists t,
     snd (main_loop E download_folder output_folder (url :: rest) d)
     = Input prompt url
       :: Download url (os_path_join download_folder "%(title)s.%(ext)s") :: t).
Proof.
  split; intros Hx; rewrite main_loop_cons.
  - rewrite (iteration_exit E _ _ url d Hx). reflexivity.
  - destruct (iteration_url E download_folder output_folder url d Hx) as [t Ht].
    destruct (iteration E download_folder output_folder url d) as [[[c|e] d1] t1];
      simpl in Ht; subst t1.
    + destruct c.
      * eexists. simpl. reflexivity.
      * destruct (main_loop E download_folder output_folder rest d1) as [[r d2] t2].
        eexists. simpl. reflexivity.
    + eexists. simpl. reflexivity.
Qed.

Lemma exit_ends_loop_else_url_witness :
  lower "EXIT" = "exit" /\ lower "Song" <> "exit" /\
  main_loop (Demo.env []) "inputs" "outputs" ["EXIT"; "Song"] []
  = (Ok tt, [], [Input prompt "EXIT"]) /\
  exists t,
    snd (main_loop (Demo.env []) "inputs" "outputs" ["Song"; "EXIT"] [])
    = Input prompt "Song" :: Download "Song" "inputs/%(title)s.%(ext)s" :: t.
Proof.
  assert (H1 : lower "EXIT" = "exit") by reflexivity.
  assert (H2 : lower "Song" <> "exit") by discriminate.
  split; [exact H1|]. split; [exact H2|]. split.
  - exact (proj1 (exit_ends_loop_else_url spec_float F64.scalar (Demo.env [])
                    "inputs" "outputs" "EXIT" ["Song"] []) H1).
  - exact (proj2 (exit_ends_loop_else_url spec_float F64.scalar (Demo.env [])
                    "inputs" "outputs" "Song" ["EXIT"] []) H2).
Defined.

(** C6. When the downloader returns a path that does not exist, the turn
    prints "Error downloading the file." and ends normally: its only events
    are the download and that message (no decoding, no directory, no
    separation, no stem is written), and the loop goes on with the next
    input from the state the download left. *)
Theorem missing_file_skips_to_next_url
    (R : Type) (SR : Scalar R) (E : Env R)
    (download_folder output_folder url : string) (rest : list string)
    (d d1 : fs E) (input_path : string) (t1 : list event) :
  lower url <> "exit" ->
  download_audio E url download_folder d = (Ok input_path, d1, t1) ->
  path_exists E input_path d1 = false ->
  t1 = [Download url (os_path_join download_folder "%(title)s.%(ext)s")] /\
  iteration E download_folder output_folder url d
  = (Ok Continue, d1,
     [Download url (os_path_join download_folder "%(title)s.%(ext)s");
      Print "Error downloading the file."]) /\
  main_loop E download_folder output_folder (url :: rest) d
  = (let '(r, d2, t2) := main_loop E download_folder output_folder rest d1 in
     (r, d2,
      Input prompt url
      :: Download url (os_path_join download_folder "%(title)s.%(ext)s")
      :: Print "Error downloading the file." :: t2)).
Proof.
  intros Hx Hdl Hex.
  assert (Ht1 : t1 = [Download url (os_path_join download_folder "%(title)s.%(ext)s")]).
  { pose proof (download_audio_trace E download_folder url d) as T.
    rewrite Hdl in T. exact T. }
  subst t1.
  assert (Hit : iteration E download_folder output_folder url d
                = (Ok Continue, d1,
                   [Download url (os_path_join download_folder "%(title)s.%(ext)s");
                    Print "Error downloading the file."])).
  { unfold iteration. apply String.eqb_neq in Hx. rewrite Hx.
    rewrite (bind_ok _ _ _ _ _ _ Hdl).
    unfold bind at 1. unfold reads at 1. rewrite Hex. reflexivity. }
  split; [reflexivity|]. split; [exact Hit|].
  rewrite main_loop_cons, Hit.
  destruct (main_loop E download_folder output_folder rest d1) as [[r d2] t2].
  reflexivity.
Qed.

Lemma missing_file_skips_to_next_url_witness :
  main_loop (Demo.env []) "inputs" "outputs" ["missing"; "exit"] []
  = (Ok tt, [],
     [Input prompt "missing"; Download "missing" "inputs/%(title)s.%(ext)s";
      Print "Error downloading the file."; Input prompt "exit"]).
Proof.
  assert (Hx : lower "missing" <> "exit") by discriminate.
  assert (Hdl : download_audio (Demo.env []) "missing" "inputs" []
                = (Ok "inputs/missing.mp3", [],
                   [Download "missing" "inputs/%(title)s.%(ext)s"]))
    by reflexivity.
  assert (Hex : path_exists (Demo.env []) "inputs/missing.mp3" [] = false)
    by reflexivity.
  destruct (missing_file_skips_to_next_url spec_float F64.scalar (Demo.env [])
              "inputs" "outputs" "missing" ["exit"] [] [] "inputs/missing.mp3" _
              Hx Hdl Hex) as (_ & _ & Hloop).
  rewrite Hloop. reflexivity.
Defined.

(** C2, as the program has it. [main] has no handler around the analysis or
    the separation: when [detect_key_and_bpm] or [split_audio] raises, the
    exception leaves the loop. The run ends with that exception, and the
    inputs after the failing URL are never prompted for. *)
Theorem analysis_or_separation_failure_ends_loop
    (R : Type) (SR : Scalar R) (E : Env R)
    (download_folder output_folder url : string) (rest : list string)
    (d d1 : fs E) (input_path : string) (t1 : list event) :
  lower url <> "exit" ->
  download_audio E url download_folder d = (Ok input_path, d1, t1) ->
  path_exists E input_path d1 = true ->
  (forall e d2 t2,
     detect_key_and_bpm E input_path d1 = (Raise e, d2, t2) ->
     main_loop E download_folder output_folder (url :: rest) d
     = (Raise e, d2, Input prompt url :: t1 ++ t2)%list) /\
  (forall key bpm d2 t2 name d3 e d4 t4,
     detect_key_and_bpm E input_path d1 = (Ok (key, bpm), d2, t2) ->
     folder_name (os_path_splitext_root (os_path_basename input_path)) key bpm
     = Ok name ->
     makedirs E (os_path_join output_folder name) d2 = (Ok tt, d3) ->
     split_audio E input_path (os_path_join output_folder name) d3
     = (Raise e, d4, t4) ->
     main_loop E download_folder output_folder (url :: rest) d
     = (Raise e, d4,
        Input prompt url
        :: t1 ++ t2
           ++ [Print ("Detected Key: " ++ key ++ ", BPM: " ++ float_str E bpm);
               Makedirs (os_path_join output_folder name)] ++ t4)%list).
Proof.
  intros Hx Hdl Hex. apply String.eqb_neq in Hx.
  split.
  - intros e d2 t2 Hdet.
    rewrite main_loop_cons. unfold iteration. rewrite Hx.
    rewrite (bind_ok _ _ _ _ _ _ Hdl).
    unfold bind at 1. unfold reads at 1. rewrite Hex. cbn [negb].
    rewrite (bind_raise _ _ _ _ _ _ Hdet). reflexivity.
  - intros key bpm d2 t2 name d3 e d4 t4 Hdet Hname Hmk Hsplit.
    rewrite main_loop_cons. unfold iteration. rewrite Hx.
    rewrite (bind_ok _ _ _ _ _ _ Hdl).
    unfold bind at 1. unfold reads at 1. rewrite Hex. cbn [negb].
    rewrite (bind_ok _ _ _ _ _ _ Hdet).
    unfold bind at 1. unfold print, emit.
    unfold bind at 1. unfold lift. rewrite Hname.
    unfold bind at 1. unfold call. rewrite Hmk.
    rewrite (bind_raise _ _ _ _ _ _ Hsplit).
    cbn. reflexivity.
Qed.

Lemma analysis_or_separation_failure_ends_loop_witness :
  main_loop (Demo.env []) "inputs" "outputs" ["corrupt"; "exit"] []
  = (Raise (Exception "NoBackendError" "could not decode"),
     ["inputs/corrupt.mp3"],
     [Input prompt "corrupt"; Download "corrupt" "inputs/%(title)s.%(ext)s";
      Load "inputs/corrupt.mp3"]) /\
  fst (fst (main_loop (Demo.env []) "inputs" "outputs" ["huge"; "exit"] []))
  = Raise (Exception "RuntimeError" "out of memory").
Proof.
  split.
  - assert (Hx : lower "corrupt" <> "exit") by discriminate.
    refine (proj1 (analysis_or_separation_failure_ends_loop
                     spec_float F64.scalar (Demo.env [])
                     "inputs" "outputs" "corrupt" ["exit"] [] ["inputs/corrupt.mp3"]
                     "inputs/corrupt.mp3"
                     [Download "corrupt" "inputs/%(title)s.%(ext)s"]
                     Hx eq_refl eq_refl) _ _ _ _).
    reflexivity.
  - assert (Hx : lower "huge" <> "exit") by discriminate.
    rewrite (proj2 (analysis_or_separation_failure_ends_loop
                     spec_float F64.scalar (Demo.env [])
                     "inputs" "outputs" "huge" ["exit"] [] ["inputs/huge.mp3"]
                     "inputs/huge.mp3"
                     [Download "huge" "inputs/%(title)s.%(ext)s"]
                     Hx eq_refl eq_refl)
               "D minor" Demo.bpm_128_7 ["inputs/huge.mp3"]
               [Load "inputs/huge.mp3"; BeatTrack; ChromaStft]
               "huge_D minor_128"
               ["outputs/huge_D minor_128"; "inputs/huge.mp3"]
               (Exception "RuntimeError" "out of memory")
               ["outputs/huge_D minor_128"; "inputs/huge.mp3"]
               [Print "Splitting audio: inputs/huge.mp3";
                NewSeparator "htdemucs_ft" "cpu"; Separate "inputs/huge.mp3"]).
    + reflexivity.
    + vm_compute. reflexivity.
    + vm_compute. reflexivity.
    + reflexivity.
    + vm_compute. reflexivity.
Defined.

(** C2, as stated, fails: a file that cannot be decoded ends the whole run
    with the decoder's exception, and a file that cannot be separated ends
    it with the model's; in both runs the second input is never prompted
    for. *)
Lemma failure_containment_counterexample :
  main (Demo.env []) ["corrupt"; "Song"] []
  = (Raise (Exception "NoBackendError" "could not decode"),
     ["inputs/corrupt.mp3"; "outputs"; "inputs"],
     [Makedirs "inputs"; Makedirs "outputs";
      Input prompt "corrupt"; Download "corrupt" "inputs/%(title)s.%(ext)s";
      Load "inputs/corrupt.mp3"]) /\
  main (Demo.env []) ["huge"; "Song"] []
  = (Raise (Exception "RuntimeError" "out of memory"),
     ["outputs/huge_D minor_128"; "inputs/huge.mp3"; "outputs"; "inputs"],
     [Makedirs "inputs"; Makedirs "outputs";
      Input prompt "huge"; Download "huge" "inputs/%(title)s.%(ext)s";
      Load "inputs/huge.mp3"; BeatTrack; ChromaStft;
      Print "Detected Key: D minor, BPM: 128.7";
      Makedirs "outputs/huge_D minor_128";
      Print "Splitting audio: inputs/huge.mp3";
      NewSeparator "htdemucs_ft" "cpu"; Separate "inputs/huge.mp3"]).
Proof. split; vm_compute; reflexivity. Qed.

(* ===================================================================== *)
(** ** Strings and paths *)

Lemma str_length_app (a b : string) :
  String.length (a ++ b) = (String.length a + String.length b)%nat.
Proof. induction a as [|c a IH]; simpl; [reflexivity | rewrite IH; reflexivity]. Qed.

Lemma str_app_assoc (a b c : string) : (a ++ b) ++ c = a ++ b ++ c.
Proof. induction a as [|x a IH]; simpl; [reflexivity | rewrite IH; reflexivity]. Qed.

Lemma str_app_nil_r (a : string) : a ++ "" = a.
Proof. induction a as [|x a IH]; simpl; [reflexivity | rewrite IH; reflexivity]. Qed.

Lemma has_char_app (c : ascii) (a b : string) :
  has_char c (a ++ b) = has_char c a || has_char c b.
Proof.
  induction a as [|x a IH]; simpl; [reflexivity|].
  rewrite IH, orb_assoc. reflexivity.
Qed.

Lemma substring_all (s : string) : substring 0 (String.length s) s = s.
Proof. induction s as [|c s IH]; simpl; [reflexivity | rewrite IH; reflexivity]. Qed.

Lemma substring_take_app (a b : string) :
  substring 0 (String.length a) (a ++ b) = a.
Proof.
  induction a as [|c a IH]; simpl.
  - destruct b; reflexivity.
  - rewrite IH. reflexivity.
Qed.

Lemma substring_drop_app (a b : string) :
  substring (String.length a) (String.length b) (a ++ b) = b.
Proof.
  induction a as [|c a IH]; simpl; [apply substring_all | exact IH].
Qed.

Lemma has_char_substring (c : ascii) (s : string) :
  has_char c s = false -> forall n, has_char c (substring 0 n s) = false.
Proof.
  induction s as [|a s IH]; intros Hs n.
  - destruct n; reflexivity.
  - simpl in Hs. apply orb_false_iff in Hs. destruct Hs as [Ha Hs].
    destruct n as [|n]; simpl; [reflexivity|].
    rewrite Ha. simpl. apply IH. exact Hs.
Qed.

(** *** [rfind] *)

Lemma rfind_aux_absent (c : ascii) (s : string) :
  has_char c s = false -> forall i last, rfind_aux c s i last = last.
Proof.
  induction s as [|a s IH]; intros Hs i last; simpl; [reflexivity|].
  simpl in Hs. apply orb_false_iff in Hs. destruct Hs as [Ha Hs].
  rewrite Ha. apply IH. exact Hs.
Qed.

Lemma rfind_aux_last (c : ascii) (a b : string) :
  has_char c b = false ->
  forall i last,
    rfind_aux c (a ++ String c b) i last = (i + Z.of_nat (String.length a))%Z.
Proof.
  intros Hb. induction a as [|x a IH]; intros i last; simpl.
  - rewrite Ascii.eqb_refl, (rfind_aux_absent c b Hb). lia.
  - rewrite IH. lia.
Qed.

(** Either [c] does not occur, or the string splits at its last
    occurrence. *)
Lemma rfind_aux_split (c : ascii) (s : string) :
  forall i last,
    (has_char c s = false /\ rfind_aux c s i last = last) \/
    (exists a b, s = a ++ String c b /\ has_char c b = false /\
                 rfind_aux c s i last = (i + Z.of_nat (String.length a))%Z).
Proof.
  induction s as [|x s IH]; intros i last.
  - left. split; reflexivity.
  - simpl.
    destruct (IH (i + 1)%Z (if Ascii.eqb x c then i else last))
      as [[Hs Hr] | (a & b & -> & Hb & Hr)].
    + destruct (Ascii.eqb x c) eqn:Hx.
      * right. apply Ascii.eqb_eq in Hx. subst x.
        exists "", s. repeat split; [exact Hs | simpl; lia].
      * left. split; [simpl; exact Hs | exact Hr].
    + right. exists (String x a), b. repeat split; [exact Hb|].
      rewrite Hr. simpl String.length. lia.
Qed.

Lemma basename_has_no_separator (p : string) :
  has_char "/" (os_path_basename p) = false.
Proof.
  unfold os_path_basename, py_drop, rfind.
  destruct (rfind_aux_split "/" p 0 (-1)) as [[Hs Hr] | (a & b & -> & Hb & Hr)];
    rewrite Hr.
  - simpl Z.to_nat. rewrite Nat.sub_0_r, substring_all. exact Hs.
  - replace (Z.to_nat (0 + Z.of_nat (String.length a) + 1))
      with (String.length (a ++ "/")) by (rewrite str_length_app; simpl; lia).
    replace (a ++ String "/" b) with ((a ++ "/") ++ b)
      by (rewrite str_app_assoc; reflexivity).
    replace (String.length ((a ++ "/") ++ b) - String.length (a ++ "/"))%nat
      with (String.length b) by (rewrite (str_length_app (a ++ "/") b); lia).
    rewrite substring_drop_app. exact Hb.
Qed.

Lemma basename_after_separator (a x : string) :
  has_char "/" x = false -> os_path_basename (a ++ String "/" x) = x.
Proof.
  intros Hx. unfold os_path_basename, py_drop, rfind.
  rewrite (rfind_aux_last "/" a x Hx).
  replace (Z.to_nat (0 + Z.of_nat (String.length a) + 1))
    with (String.length (a ++ "/")) by (rewrite str_length_app; simpl; lia).
  replace (a ++ String "/" x) with ((a ++ "/") ++ x)
    by (rewrite str_app_assoc; reflexivity).
  replace (String.length ((a ++ "/") ++ x) - String.length (a ++ "/"))%nat
    with (String.length x) by (rewrite (str_length_app (a ++ "/") x); lia).
  apply substring_drop_app.
Qed.

Lemma basename_without_separator (x : string) :
  has_char "/" x = false -> os_path_basename x = x.
Proof.
  intros Hx. unfold os_path_basename, py_drop, rfind.
  rewrite (rfind_aux_absent "/" x Hx). simpl Z.to_nat.
  rewrite Nat.sub_0_r. apply substring_all.
Qed.

Lemma splitext_root_has_no_separator (t : string) :
  has_char "/" t = false -> has_char "/" (os_path_splitext_root t) = false.
Proof.
  intros Ht. unfold os_path_splitext_root.
  destruct (rfind "/" t <? rfind "." t)%Z; [|exact Ht].
  destruct (all_chars _ _); [exact Ht|].
  apply has_char_substring. exact Ht.
Qed.

Lemma prefix_separator (x : string) :
  has_char "/" x = false -> prefix "/" x = false.
Proof.
  destruct x as [|a x]; [reflexivity|].
  cbn [has_char prefix]. intros Hx.
  apply orb_false_iff in Hx. destruct Hx as [Ha _].
  destruct (ascii_dec "/" a) as [<-|]; [|reflexivity].
  rewrite Ascii.eqb_refl in Ha. discriminate.
Qed.

Lemma ends_with_char_inv (c : ascii) (s : string) :
  ends_with_char c s = true -> exists s', s = s' ++ String c "".
Proof.
  induction s as [|a s IH]; simpl; [discriminate|].
  destruct s as [|b s].
  - intros Ha. apply Ascii.eqb_eq in Ha. subst a. exists "". reflexivity.
  - intros Hs. destruct (IH Hs) as [s' ->]. exists (String a s'). reflexivity.
Qed.

Lemma basename_of_join (folder x : string) :
  has_char "/" x = false -> os_path_basename (os_path_join folder x) = x.
Proof.
  intros Hx. unfold os_path_join. rewrite (prefix_separator x Hx).
  destruct (String.length folder =? 0)%nat eqn:Hlen.
  - apply Nat.eqb_eq in Hlen. destruct folder; [|discriminate]. simpl.
    apply basename_without_separator. exact Hx.
  - simpl orb. destruct (ends_with_char "/" folder) eqn:Hend.
    + destruct (ends_with_char_inv _ _ Hend) as [f ->].
      rewrite str_app_assoc. simpl. apply basename_after_separator. exact Hx.
    + apply basename_after_separator. exact Hx.
Qed.


(** *** A file directly inside a directory *)






(* ===================================================================== *)
(** ** Stem persistence *)

Section PersistenceFacts.
Context {R : Type} `{Scalar R} (E : Env R).

Lemma save_source_saved sep output_folder source a d d1 :
  save_audio E a (os_path_join output_folder (source ++ ".wav"))
             (samplerate E sep) d = (Ok tt, d1) ->
  save_source E sep output_folder (source, a) d
  = (Ok tt, d1,
     [SaveAudio source (os_path_join output_folder (source ++ ".wav"))
                (samplerate E sep);
      Print ("Saved " ++ source ++ " to "
             ++ os_path_join output_folder (source ++ ".wav"))]).
Proof.
  intros Hs. unfold save_source, try_except, bind, call, print, emit.
  rewrite Hs. reflexivity.
Qed.

Lemma save_source_failed sep output_folder source a d d1 cls msg cwd :
  save_audio E a (os_path_join output_folder (source ++ ".wav"))
             (samplerate E sep) d = (Raise (Exception cls msg), d1) ->
  getcwd E d1 = Ok cwd ->
  save_source E sep output_folder (source, a) d
  = (Ok tt, d1,
     SaveAudio source (os_path_join output_folder (source ++ ".wav"))
               (samplerate E sep)
     :: failure_report E source output_folder
          (os_path_join output_folder (source ++ ".wav"))
          (os_path_dirname (os_path_join output_folder (source ++ ".wav")))
          (Exception cls msg) cwd d1).
Proof.
  intros Hs Hcwd.
  unfold save_source, try_except, bind, call, print, emit, reads, tries.
  rewrite Hs, Hcwd. reflexivity.
Qed.

(** When the handler cannot tell the working directory, its exception
    replaces the one it was handling and leaves the turn. *)
Lemma save_source_handler_fails sep output_folder source a d d1 cls msg e :
  save_audio E a (os_path_join output_folder (source ++ ".wav"))
             (samplerate E sep) d = (Raise (Exception cls msg), d1) ->
  getcwd E d1 = Raise e ->
  save_source E sep output_folder (source, a) d
  = (Raise e, d1,
     [SaveAudio source (os_path_join output_folder (source ++ ".wav"))
                (samplerate E sep);
      Print ("Error saving " ++ source ++ ": " ++ msg)]).
Proof.
  intros Hs Hcwd.
  unfold save_source, try_except, bind, call, print, emit, reads, tries.
  rewrite Hs, Hcwd. reflexivity.
Qed.



End PersistenceFacts.


Lemma demo_writes_raise_only_exceptions unwritable sep output_folder sources :
  writes_raise_only_exceptions (Demo.env unwritable) sep output_folder sources.
Proof.
  intros source a d cls msg _. simpl. unfold Demo.save.
  destruct (Demo.exists_in _ unwritable); simpl; discriminate.
Qed.

Lemma demo_cwd_is_there unwritable : cwd_is_there (Demo.env unwritable).
Proof. intros d. exists "/work". reflexivity. Qed.


(** The run of the witness, written out: the write of "bass" fails and is
    reported, "other" and "vocals" are written after it. *)
Example partial_persistence_run :
  split_audio (Demo.env ["out/bass.wav"]) "inputs/Song.mp3" "out" []
  = (Ok tt,
     ["out/vocals.wav"; "out/other.wav"; "out/drums.wav"; "out"],
     [Print "Splitting audio: inputs/Song.mp3";
      NewSeparator "htdemucs_ft" "cpu"; Separate "inputs/Song.mp3";
      Makedirs "out";
      SaveAudio "drums" "out/drums.wav" 44100;
      Print "Saved drums to out/drums.wav";
      SaveAudio "bass" "out/bass.wav" 44100;
      Print "Error saving bass: permission denied";
      Print "Current working directory: /work";
      Print "Output folder: out";
      Print "File path: out/bass.wav";
      Print "File path exists: True";
      Print "File path writable: True";
      SaveAudio "other" "out/other.wav" 44100;
      Print "Saved other to out/other.wav";
      SaveAudio "vocals" "out/vocals.wav" 44100;
      Print "Saved vocals to out/vocals.wav";
      Print "Audio splitting completed."]).
Proof. vm_compute. reflexivity. Qed.


(* ===================================================================== *)
(** ** The name of the output directory *)


Lemma Qfloor_finite (m : positive) (e : Z) :
  Qfloor (SF_value m e)
  = match e with
    | Z0 => Zpos m
    | Zpos p => Z.shiftl (Zpos m) (Zpos p)
    | Zneg p => Z.shiftr (Zpos m) (Zpos p)
    end.
Proof.
  unfold SF_value. destruct e as [|p|p].
  - change (2 ^ 0) with 1. rewrite Qmult_1_r. apply Qfloor_Z.
  - rewrite Z.shiftl_mul_pow2 by lia.
    assert (E : inject_Z (Zpos m) * 2 ^ Zpos p == inject_Z (Zpos m * 2 ^ Zpos p)).
    { rewrite inject_Z_mult. apply Qmult_comp; [reflexivity|].
      symmetry. apply (Zpower_Qpower 2 (Zpos p)). lia. }
    rewrite E. apply Qfloor_Z.
  - rewrite Z.shiftr_div_pow2 by lia.
    assert (E : inject_Z (Zpos m) * 2 ^ Zneg p == Zpos m # (2 ^ p)).
    { rewrite (Qmake_Qdiv (Zpos m) (2 ^ p)). unfold Qdiv.
      apply Qmult_comp; [reflexivity|].
      change (2 ^ Zneg p) with (/ (2 ^ Zpos p)).
      apply Qinv_comp. rewrite Pos2Z.inj_pow.
      symmetry. apply (Zpower_Qpower 2 (Zpos p)). lia. }
    rewrite E. unfold Qfloor. rewrite Pos2Z.inj_pow. reflexivity.
Qed.

(** C3. The directory name is title, key label and [int(bpm)] joined by
    underscores, and [int] drops the fraction of a non-negative tempo: it is
    the floor of its value. For "Song", "D minor" and 128.7 the name is
    "Song_D minor_128", and that is the directory a run on such a track
    creates under "outputs". *)
Theorem folder_name_floors_bpm :
  folder_name "Song" "D minor" Demo.bpm_128_7 = Ok "Song_D minor_128" /\
  (forall (title key : string) (m : positive) (e : Z),
     folder_name title key (S754_finite false m e)
     = Ok (title ++ "_" ++ key ++ "_" ++ str_of_int (Qfloor (SF_value m e)))) /\
  (forall (title key : string) (sign : bool),
     folder_name title key (S754_zero sign) = Ok (title ++ "_" ++ key ++ "_0")) /\
  In (Makedirs "outputs/Song_D minor_128")
     (snd (main (Demo.env []) ["Song"; "exit"] [])).
Proof.
  split; [vm_compute; reflexivity|].
  split; [|split].
  - intros title key m e. rewrite Qfloor_finite. reflexivity.
  - intros title key sign. reflexivity.
  - vm_compute. tauto.
Qed.


(* ===================================================================== *)
(** * Further properties of the program *)

(* ===================================================================== *)
(** ** The key estimator beyond the tie-break *)

(** X1 (witness). A chroma mean with all its energy on the C major triad:
    the estimator still answers with a minor key. *)
Lemma estimate_key_answers_minor_witness :
  let c := map F64.of_int [1; 0; 0; 0; 1; 0; 0; 1; 0; 0; 0; 0]%Z in
  List.length c = 12%nat /\
  exists k, In k keys /\ estimate_key c = Ok (k ++ " minor").
Proof.
  intros c. split; [reflexivity|].
  pose (major := map (fun i => dot_acc (s_of_int 0) (np_roll major_profile i) c)
                     (seq 0 12)).
  assert (HM : major_scores c = Ok major) by (apply scores_ok; reflexivity).
  assert (NM : Forall (fun x => s_isnan x = false) major)
    by (vm_compute; repeat constructor).
  exact (estimate_key_answers_minor c major eq_refl HM NM).
Defined.

(** X2. Whatever the arithmetic, the twelve minor scores are the twelve major
    scores moved by nine places ([np.roll(major_scores, 9)]): the minor score
    of a root is the major score of the root three semitones above it. *)
Theorem minor_scores_are_rolled_major_scores
    (R : Type) (SR : Scalar R) (c major minor : list R) :
  major_scores c = Ok major -> minor_scores c = Ok minor ->
  minor = np_roll major 9 /\
  forall j, (j < 12)%nat -> nth_error minor j = nth_error major ((j + 3) mod 12).
Proof.
  intros HM Hm.
  destruct (scores_inv major_profile c major eq_refl HM) as [_ ->].
  destruct (scores_inv minor_profile c minor eq_refl Hm) as [_ ->].
  split.
  - reflexivity.
  - intros j Hj.
    do 12 (destruct j as [|j]; [reflexivity|]). lia.
Qed.

Lemma minor_scores_are_rolled_major_scores_witness :
  exists major minor,
    major_scores Demo.chroma_dm = Ok major /\
    minor_scores Demo.chroma_dm = Ok minor /\
    minor = np_roll major 9.
Proof.
  pose (major := map (fun i => dot_acc (s_of_int 0) (np_roll major_profile i)
                                 Demo.chroma_dm) (seq 0 12)).
  pose (minor := map (fun i => dot_acc (s_of_int 0) (np_roll minor_profile i)
                                 Demo.chroma_dm) (seq 0 12)).
  assert (HM : major_scores Demo.chroma_dm = Ok major)
    by (apply scores_ok; reflexivity).
  assert (Hm : minor_scores Demo.chroma_dm = Ok minor)
    by (apply scores_ok; reflexivity).
  exists major, minor. split; [exact HM|]. split; [exact Hm|].
  exact (proj1 (minor_scores_are_rolled_major_scores spec_float F64.scalar
                  Demo.chroma_dm major minor HM Hm)).
Defined.

(** X3. The estimator needs exactly twelve bins: on a chroma mean of any
    other length [n] the first [np.dot] raises the ValueError "shapes (12,)
    and (n,) not aligned: 12 (dim 0) != n (dim 0)" and no key is returned;
    on twelve bins a key is always returned. *)
Theorem estimate_key_needs_twelve_bins
    (R : Type) (SR : Scalar R) (c : list R) :
  (List.length c <> 12%nat ->
   estimate_key c
   = Raise (Exception "ValueError"
              ("shapes (12,) and (" ++ str_of_nat (List.length c)
               ++ ",) not aligned: 12 (dim 0) != "
               ++ str_of_nat (List.length c) ++ " (dim 0)"))) /\
  ((exists label, estimate_key c = Ok label) <-> List.length c = 12%nat).
Proof.
  assert (Hbad : List.length c <> 12%nat ->
                 estimate_key c
                 = Raise (Exception "ValueError"
                            ("shapes (12,) and (" ++ str_of_nat (List.length c)
                             ++ ",) not aligned: 12 (dim 0) != "
                             ++ str_of_nat (List.length c) ++ " (dim 0)"))).
  { intros Hc. unfold estimate_key, major_scores, scores.
    change (seq 0 12) with (0%nat :: seq 1 11). cbn [mapR].
    unfold np_dot at 1. rewrite np_roll_length.
    replace (List.length major_profile =? List.length c)%nat with false
      by (symmetry; apply Nat.eqb_neq; simpl; lia).
    reflexivity. }
  split; [exact Hbad|]. split.
  - intros [label Hl].
    destruct (Nat.eq_dec (List.length c) 12) as [E|E]; [exact E|].
    rewrite (Hbad E) in Hl. discriminate.
  - intros Hc.
    destruct (estimate_key_run c Hc)
      as (major & minor & bM & bm & M & m & kM & km & H).
    eexists. apply H.
Qed.

Lemma estimate_key_needs_twelve_bins_witness :
  estimate_key (@nil spec_float)
  = Raise (Exception "ValueError"
             "shapes (12,) and (0,) not aligned: 12 (dim 0) != 0 (dim 0)") /\
  estimate_key (repeat F64.zero 13)
  = Raise (Exception "ValueError"
             "shapes (12,) and (13,) not aligned: 12 (dim 0) != 13 (dim 0)").
Proof.
  split.
  - apply (proj1 (estimate_key_needs_twelve_bins spec_float F64.scalar [])).
    discriminate.
  - apply (proj1 (estimate_key_needs_twelve_bins spec_float F64.scalar
                    (repeat F64.zero 13))).
    discriminate.
Defined.

(** *** NaN *)

Lemma F64_add_nan_r (x : spec_float) : s_add x S754_nan = S754_nan.
Proof. destruct x as [| | |[] ? ?]; reflexivity. Qed.

Lemma F64_mul_nan_r (x : spec_float) : s_mul x S754_nan = S754_nan.
Proof. destruct x as [| | |[] ? ?]; reflexivity. Qed.

Lemma dot_acc_from_nan (a : list Z) :
  forall c : list spec_float, dot_acc S754_nan a c = S754_nan.
Proof.
  induction a as [|x a IH]; intros [|y c]; simpl; try reflexivity. apply IH.
Qed.

Lemma dot_acc_with_nan (a : list Z) :
  forall (c : list spec_float) (acc : spec_float),
    List.length a = List.length c -> In S754_nan c ->
    dot_acc acc a c = S754_nan.
Proof.
  induction a as [|x a IH]; intros [|y c] acc Hlen Hin; simpl in *;
    try discriminate; try contradiction.
  destruct Hin as [-> | Hin].
  - change (SFmul F64.prec F64.emax (F64.of_int x) S754_nan)
      with (s_mul (F64.of_int x) S754_nan).
    rewrite F64_mul_nan_r.
    change (SFadd F64.prec F64.emax acc S754_nan) with (s_add acc S754_nan).
    rewrite F64_add_nan_r. apply dot_acc_from_nan.
  - apply IH; [lia | exact Hin].
Qed.

(** X4. One NaN bin decides the answer: since 0 * NaN is NaN, all 24 scores
    are NaN, [np.argmax] stops at index 0 in both modes, no comparison is
    true, and the key is "C minor" whatever the other bins hold. *)
Theorem nan_bin_gives_C_minor (c : list spec_float) :
  List.length c = 12%nat -> In S754_nan c ->
  major_scores c = Ok (repeat S754_nan 12) /\
  minor_scores c = Ok (repeat S754_nan 12) /\
  estimate_key c = Ok "C minor".
Proof.
  intros Hc Hin.
  assert (G : forall p, List.length p = 12%nat ->
                        scores p c = Ok (repeat S754_nan 12)).
  { intros p Hp. rewrite scores_ok by congruence. f_equal.
    change (repeat S754_nan 12) with (map (fun _ : nat => S754_nan) (seq 0 12)).
    apply map_ext. intros i. apply dot_acc_with_nan; [|exact Hin].
    rewrite np_roll_length. congruence. }
  assert (HM : major_scores c = Ok (repeat S754_nan 12)) by (apply G; reflexivity).
  assert (Hm : minor_scores c = Ok (repeat S754_nan 12)) by (apply G; reflexivity).
  split; [exact HM|]. split; [exact Hm|].
  unfold estimate_key. rewrite HM, Hm. reflexivity.
Qed.

Lemma nan_bin_gives_C_minor_witness :
  estimate_key
    (map F64.of_int [0; 0; 9; 0; 0; 9; 0; 0; 0; 9; 0]%Z ++ [S754_nan])%list
  = Ok "C minor".
Proof.
  apply nan_bin_gives_C_minor.
  - reflexivity.
  - apply in_or_app. right. left. reflexivity.
Defined.

(* ===================================================================== *)
(** ** Transposition, in exact arithmetic *)











(* ===================================================================== *)
(** ** The loop: how it ends *)

Lemma ascii_lower_e (a : ascii) :
  ascii_lower a = "e"%char -> a = "e"%char \/ a = "E"%char.
Proof.
  destruct a as [[] [] [] [] [] [] [] []]; vm_compute; intros Ha;
    try discriminate; tauto.
Qed.

Lemma ascii_lower_x (a : ascii) :
  ascii_lower a = "x"%char -> a = "x"%char \/ a = "X"%char.
Proof.
  destruct a as [[] [] [] [] [] [] [] []]; vm_compute; intros Ha;
    try discriminate; tauto.
Qed.

Lemma ascii_lower_i (a : ascii) :
  ascii_lower a = "i"%char -> a = "i"%char \/ a = "I"%char.
Proof.
  destruct a as [[] [] [] [] [] [] [] []]; vm_compute; intros Ha;
    try discriminate; tauto.
Qed.

Lemma ascii_lower_t (a : ascii) :
  ascii_lower a = "t"%char -> a = "t"%char \/ a = "T"%char.
Proof.
  destruct a as [[] [] [] [] [] [] [] []]; vm_compute; intros Ha;
    try discriminate; tauto.
Qed.

(** X6. The inputs that end the loop are exactly the sixteen spellings of
    "exit" in upper and lower case: an input with a space around it, or any
    other word, is taken for a URL. *)
Theorem exit_inputs_are_the_sixteen_spellings (url : string) :
  lower url = "exit" <-> In url exit_tokens.
Proof.
  split.
  - destruct url as [|a [|b [|c [|d [|z rest]]]]]; simpl; try discriminate.
    intros Hl. injection Hl as Ha Hb Hc Hd.
    apply ascii_lower_e in Ha. apply ascii_lower_x in Hb.
    apply ascii_lower_i in Hc. apply ascii_lower_t in Hd.
    destruct Ha as [-> | ->], Hb as [-> | ->], Hc as [-> | ->], Hd as [-> | ->];
      vm_compute; tauto.
  - intros Hin. vm_compute in Hin.
    repeat (destruct Hin as [<- | Hin]; [reflexivity|]). contradiction.
Qed.

Section LoopEnds.
Context {R : Type} `{Scalar R} (E : Env R).
Variables download_folder output_folder : string.

Lemma bind_ok_inv {S A B} (m : M S A) (k : A -> M S B) d b d2 t :
  bind m k d = (Ok b, d2, t) ->
  exists a d1 t1 t2,
    m d = (Ok a, d1, t1) /\ k a d1 = (Ok b, d2, t2) /\ t = (t1 ++ t2)%list.
Proof.
  unfold bind. destruct (m d) as [[[a|e] d1] t1]; [|discriminate].
  destruct (k a d1) as [[r d2'] t2] eqn:Hk.
  intros Heq. injection Heq as -> -> <-.
  exists a, d1, t1, t2. auto.
Qed.

(** A turn ends in [break] only on an exit input. *)
Lemma iteration_break_inv (url : string) d d1 t1 :
  iteration E download_folder output_folder url d = (Ok Break, d1, t1) ->
  lower url = "exit".
Proof.
  unfold iteration.
  destruct (String.eqb (lower url) "exit") eqn:Hx;
    [intros _; apply String.eqb_eq; exact Hx|].
  intros Hit.
  apply bind_ok_inv in Hit. destruct Hit as (p & d2 & t2 & t3 & _ & Hit & _).
  apply bind_ok_inv in Hit. destruct Hit as (ex & d3 & t4 & t5 & _ & Hit & _).
  destruct (negb ex).
  - apply bind_ok_inv in Hit. destruct Hit as (? & ? & ? & ? & _ & Hit & _).
    discriminate.
  - apply bind_ok_inv in Hit. destruct Hit as ([key bpm] & ? & ? & ? & _ & Hit & _).
    apply bind_ok_inv in Hit. destruct Hit as (? & ? & ? & ? & _ & Hit & _).
    apply bind_ok_inv in Hit. destruct Hit as (? & ? & ? & ? & _ & Hit & _).
    apply bind_ok_inv in Hit. destruct Hit as (? & ? & ? & ? & _ & Hit & _).
    apply bind_ok_inv in Hit. destruct Hit as (? & ? & ? & ? & _ & Hit & _).
    discriminate.
Qed.

Lemma main_loop_ok_inv (inputs : list string) :
  forall d d' t,
    main_loop E download_folder output_folder inputs d = (Ok tt, d', t) ->
    exists pre url rest,
      inputs = (pre ++ url :: rest)%list /\ lower url = "exit" /\
      Forall (fun u => lower u <> "exit") pre.
Proof.
  induction inputs as [|url rest IH]; intros d d' t Hrun.
  - discriminate.
  - rewrite main_loop_cons in Hrun.
    destruct (iteration E download_folder output_folder url d)
      as [[[[|]|e] d1] t1] eqn:Hit.
    + exists [], url, rest. split; [reflexivity|].
      split; [exact (iteration_break_inv url d d1 t1 Hit) | constructor].
    + destruct (main_loop E download_folder output_folder rest d1)
        as [[r d2] t2] eqn:Hrest.
      injection Hrun as -> -> _.
      destruct (IH d1 d' t2 Hrest) as (pre & u & rest' & -> & Hu & Hpre).
      destruct (String.eqb (lower url) "exit") eqn:Hx.
      * apply String.eqb_eq in Hx.
        rewrite (iteration_exit E _ _ url d Hx) in Hit. discriminate.
      * apply String.eqb_neq in Hx.
        exists (url :: pre), u, rest'. split; [reflexivity|].
        split; [exact Hu | constructor; assumption].
    + discriminate.
Qed.

Lemma main_loop_after_exit (pre : list string) (url : string)
    (rest rest' : list string) :
  lower url = "exit" ->
  forall d,
    main_loop E download_folder output_folder (pre ++ url :: rest) d
    = main_loop E download_folder output_folder (pre ++ url :: rest') d.
Proof.
  intros Hx. induction pre as [|u pre IH]; intros d.
  - simpl app. rewrite !main_loop_cons, (iteration_exit E _ _ url d Hx).
    reflexivity.
  - simpl app. rewrite !main_loop_cons.
    destruct (iteration E download_folder output_folder u d)
      as [[[[|]|e] d1] t1]; try reflexivity.
    rewrite IH. reflexivity.
Qed.

End LoopEnds.

(** X7. [main] returns normally only through [break]: if a run ends
    without an exception, some input was a spelling of "exit" (the first
    such input, all inputs before it being URLs). With no such input the run
    ends with an exception: at the latest the EOFError of [input] when the
    operator's lines run out. *)
Theorem main_returns_only_through_exit
    (R : Type) (SR : Scalar R) (E : Env R) (inputs : list string) (d : fs E) :
  (forall d' t, main E inputs d = (Ok tt, d', t) ->
     exists pre url rest,
       inputs = (pre ++ url :: rest)%list /\ lower url = "exit" /\
       Forall (fun u => lower u <> "exit") pre) /\
  (Forall (fun u => lower u <> "exit") inputs ->
   exists e, fst (fst (main E inputs d)) = Raise e).
Proof.
  assert (G : forall d' t, main E inputs d = (Ok tt, d', t) ->
     exists pre url rest,
       inputs = (pre ++ url :: rest)%list /\ lower url = "exit" /\
       Forall (fun u => lower u <> "exit") pre).
  { intros d' t Hrun. unfold main in Hrun.
    apply bind_ok_inv in Hrun. destruct Hrun as (? & d1 & ? & ? & _ & Hrun & _).
    apply bind_ok_inv in Hrun. destruct Hrun as (? & d2 & ? & ? & _ & Hrun & _).
    exact (main_loop_ok_inv E _ _ inputs _ _ _ Hrun). }
  split; [exact G|].
  intros Hno.
  destruct (main E inputs d) as [[[[]|e] d'] t] eqn:Hrun; [|exists e; reflexivity].
  exfalso. destruct (G d' t eq_refl) as (pre & url & rest & -> & Hu & _).
  apply Forall_app in Hno. destruct Hno as [_ Hno].
  inversion Hno as [|? ? Hurl _]. exact (Hurl Hu).
Qed.

Lemma main_returns_only_through_exit_witness :
  Forall (fun u => lower u <> "exit") ["missing"; "exit "; "quit"] /\
  exists e, fst (fst (main (Demo.env []) ["missing"; "exit "; "quit"] [])) = Raise e.
Proof.
  assert (Hno : Forall (fun u => lower u <> "exit") ["missing"; "exit "; "quit"])
    by (repeat constructor; discriminate).
  split; [exact Hno|].
  exact (proj2 (main_returns_only_through_exit spec_float F64.scalar (Demo.env [])
                  ["missing"; "exit "; "quit"] []) Hno).
Defined.

(** X8. What is typed after the first "exit" plays no part: two runs whose
    inputs agree up to and including an exit input are the same run, state
    and events included. *)
Theorem inputs_after_exit_are_not_read
    (R : Type) (SR : Scalar R) (E : Env R)
    (pre : list string) (url : string) (rest rest' : list string) (d : fs E) :
  lower url = "exit" ->
  main E (pre ++ url :: rest) d = main E (pre ++ url :: rest') d.
Proof.
  intros Hx. unfold main, bind.
  destruct (call (Makedirs "inputs") (makedirs E "inputs") d) as [[[[]|e] d1] t1];
    [|reflexivity].
  destruct (call (Makedirs "outputs") (makedirs E "outputs") d1) as [[[[]|e] d2] t2];
    [|reflexivity].
  rewrite (main_loop_after_exit E "inputs" "outputs" pre url rest rest' Hx d2).
  reflexivity.
Qed.

Lemma inputs_after_exit_are_not_read_witness :
  main (Demo.env []) ["missing"; "Exit"; "corrupt"; "huge"] []
  = main (Demo.env []) ["missing"; "Exit"] [].
Proof.
  apply (inputs_after_exit_are_not_read spec_float F64.scalar (Demo.env [])
           ["missing"] "Exit" ["corrupt"; "huge"] [] []).
  reflexivity.
Defined.

(* ===================================================================== *)
(** ** The loop: a turn, stage by stage *)

(** X9. The downloader is called unguarded: when it raises (a private or
    mistyped URL), the exception ends the loop right after the download
    attempt; the state is the one the downloader left and nothing after the
    failing input is read. *)
Theorem download_failure_ends_loop
    (R : Type) (SR : Scalar R) (E : Env R)
    (download_folder output_folder url : string) (rest : list string)
    (d d1 : fs E) (e : exn) :
  lower url <> "exit" ->
  ydl_download E url (os_path_join download_folder "%(title)s.%(ext)s") d
  = (Raise e, d1) ->
  main_loop E download_folder output_folder (url :: rest) d
  = (Raise e, d1,
     [Input prompt url;
      Download url (os_path_join download_folder "%(title)s.%(ext)s")]).
Proof.
  intros Hx Hdl. apply String.eqb_neq in Hx.
  rewrite main_loop_cons. unfold iteration. rewrite Hx.
  assert (Hda : download_audio E url download_folder d
                = (Raise e, d1,
                   [Download url (os_path_join download_folder "%(title)s.%(ext)s")])).
  { unfold download_audio, bind, call. rewrite Hdl. reflexivity. }
  rewrite (bind_raise _ _ _ _ _ _ Hda). reflexivity.
Qed.

Lemma download_failure_ends_loop_witness :
  main_loop Faulty.env "inputs" "outputs" ["private"; "Song"] []
  = (Raise (Exception "DownloadError" "video unavailable"), [],
     [Input prompt "private"; Download "private" "inputs/%(title)s.%(ext)s"]).
Proof.
  apply (download_failure_ends_loop spec_float F64.scalar Faulty.env
           "inputs" "outputs" "private" ["Song"] [] []).
  - discriminate.
  - reflexivity.
Defined.

(** X10. Between analysis and separation two more calls are unguarded:
    [int(bpm)] (a NaN or infinite tempo raises) and the creation of the
    output directory. When either raises, the key has already been printed,
    the separation is never started, and the exception ends the loop. *)
Theorem naming_failure_ends_loop
    (R : Type) (SR : Scalar R) (E : Env R)
    (download_folder output_folder url : string) (rest : list string)
    (d d1 d2 : fs E) (input_path key : string) (bpm : R) (t1 t2 : list event) :
  lower url <> "exit" ->
  download_audio E url download_folder d = (Ok input_path, d1, t1) ->
  path_exists E input_path d1 = true ->
  detect_key_and_bpm E input_path d1 = (Ok (key, bpm), d2, t2) ->
  (forall e,
     s_int bpm = Raise e ->
     main_loop E download_folder output_folder (url :: rest) d
     = (Raise e, d2,
        Input prompt url
        :: t1 ++ t2
           ++ [Print ("Detected Key: " ++ key ++ ", BPM: " ++ float_str E bpm)])%list) /\
  (forall name e d3,
     folder_name (os_path_splitext_root (os_path_basename input_path)) key bpm
     = Ok name ->
     makedirs E (os_path_join output_folder name) d2 = (Raise e, d3) ->
     main_loop E download_folder output_folder (url :: rest) d
     = (Raise e, d3,
        Input prompt url
        :: t1 ++ t2
           ++ [Print ("Detected Key: " ++ key ++ ", BPM: " ++ float_str E bpm);
               Makedirs (os_path_join output_folder name)])%list).
Proof.
  intros Hx Hdl Hex Hdet. apply String.eqb_neq in Hx.
  split.
  - intros e Hint.
    rewrite main_loop_cons. unfold iteration. rewrite Hx.
    rewrite (bind_ok _ _ _ _ _ _ Hdl).
    unfold bind at 1. unfold reads at 1. rewrite Hex. cbn [negb].
    rewrite (bind_ok _ _ _ _ _ _ Hdet).
    unfold bind at 1. unfold print, emit.
    unfold bind at 1. unfold lift. unfold folder_name. rewrite Hint.
    cbn. reflexivity.
  - intros name e d3 Hname Hmk.
    rewrite main_loop_cons. unfold iteration. rewrite Hx.
    rewrite (bind_ok _ _ _ _ _ _ Hdl).
    unfold bind at 1. unfold reads at 1. rewrite Hex. cbn [negb].
    rewrite (bind_ok _ _ _ _ _ _ Hdet).
    unfold bind at 1. unfold print, emit.
    unfold bind at 1. unfold lift. rewrite Hname.
    unfold bind at 1. unfold call. rewrite Hmk.
    cbn. reflexivity.
Qed.

Lemma naming_failure_ends_loop_witness :
  main_loop Faulty.env "inputs" "outputs" ["still"; "Song"] []
  = (Raise (Exception "ValueError" "cannot convert float NaN to integer"),
     ["inputs/still.mp3"],
     [Input prompt "still"; Download "still" "inputs/%(title)s.%(ext)s";
      Load "inputs/still.mp3"; BeatTrack; ChromaStft;
      Print "Detected Key: D minor, BPM: nan"]) /\
  main_loop Faulty.env "inputs" "outputs" ["locked"; "Song"] []
  = (Raise (Exception "PermissionError" "permission denied"),
     ["inputs/locked.mp3"],
     [Input prompt "locked"; Download "locked" "inputs/%(title)s.%(ext)s";
      Load "inputs/locked.mp3"; BeatTrack; ChromaStft;
      Print "Detected Key: D minor, BPM: 128.7";
      Makedirs "outputs/locked_D minor_128"]).
Proof.
  split.
  - assert (Hx : lower "still" <> "exit") by discriminate.
    refine (proj1 (naming_failure_ends_loop spec_float F64.scalar Faulty.env
                     "inputs" "outputs" "still" ["Song"] []
                     ["inputs/still.mp3"] ["inputs/still.mp3"]
                     "inputs/still.mp3" "D minor" S754_nan
                     [Download "still" "inputs/%(title)s.%(ext)s"]
                     [Load "inputs/still.mp3"; BeatTrack; ChromaStft]
                     Hx eq_refl eq_refl _) _ eq_refl).
    vm_compute. reflexivity.
  - assert (Hx : lower "locked" <> "exit") by discriminate.
    refine (proj2 (naming_failure_ends_loop spec_float F64.scalar Faulty.env
                     "inputs" "outputs" "locked" ["Song"] []
                     ["inputs/locked.mp3"] ["inputs/locked.mp3"]
                     "inputs/locked.mp3" "D minor" Demo.bpm_128_7
                     [Download "locked" "inputs/%(title)s.%(ext)s"]
                     [Load "inputs/locked.mp3"; BeatTrack; ChromaStft]
                     Hx eq_refl eq_refl _) "locked_D minor_128" _ _ _ _).
    + vm_compute. reflexivity.
    + vm_compute. reflexivity.
    + reflexivity.
Defined.

(** X11. A turn in which every stage succeeds does, in this order: the
    download, the analysis, the line with key and tempo, the creation of
    the output directory, the separation into that directory; then the loop
    prompts again, from the state the separation left. *)
Theorem successful_turn_then_next_input
    (R : Type) (SR : Scalar R) (E : Env R)
    (download_folder output_folder url : string) (rest : list string)
    (d d1 d2 d3 d4 : fs E) (input_path key name : string) (bpm : R)
    (t1 t2 t4 : list event) :
  lower url <> "exit" ->
  download_audio E url download_folder d = (Ok input_path, d1, t1) ->
  path_exists E input_path d1 = true ->
  detect_key_and_bpm E input_path d1 = (Ok (key, bpm), d2, t2) ->
  folder_name (os_path_splitext_root (os_path_basename input_path)) key bpm
  = Ok name ->
  makedirs E (os_path_join output_folder name) d2 = (Ok tt, d3) ->
  split_audio E input_path (os_path_join output_folder name) d3 = (Ok tt, d4, t4) ->
  main_loop E download_folder output_folder (url :: rest) d
  = (let '(r, d5, t5) := main_loop E download_folder output_folder rest d4 in
     (r, d5,
      Input prompt url
      :: t1 ++ t2
         ++ [Print ("Detected Key: " ++ key ++ ", BPM: " ++ float_str E bpm);
             Makedirs (os_path_join output_folder name)]
         ++ t4 ++ t5)%list).
Proof.
  intros Hx Hdl Hex Hdet Hname Hmk Hsplit. apply String.eqb_neq in Hx.
  assert (Hit : iteration E download_folder output_folder url d
                = (Ok Continue, d4,
                   t1 ++ t2
                   ++ [Print ("Detected Key: " ++ key ++ ", BPM: " ++ float_str E bpm);
                       Makedirs (os_path_join output_folder name)]
                   ++ t4)%list).
  { unfold iteration. rewrite Hx.
    rewrite (bind_ok _ _ _ _ _ _ Hdl).
    unfold bind at 1. unfold reads at 1. rewrite Hex. cbn [negb].
    rewrite (bind_ok _ _ _ _ _ _ Hdet).
    unfold bind at 1. unfold print, emit.
    unfold bind at 1. unfold lift. rewrite Hname.
    unfold bind at 1. unfold call. rewrite Hmk.
    rewrite (bind_ok _ _ _ _ _ _ Hsplit).
    cbn. rewrite !app_nil_r. reflexivity. }
  rewrite main_loop_cons, Hit.
  destruct (main_loop E download_folder output_folder rest d4) as [[r d5] t5].
  rewrite <- !app_assoc. reflexivity.
Qed.

Lemma successful_turn_then_next_input_witness :
  fst (fst (main_loop (Demo.env []) "inputs" "outputs" ["Song"; "exit"] [])) = Ok tt /\
  In (Input prompt "exit")
     (snd (main_loop (Demo.env []) "inputs" "outputs" ["Song"; "exit"] [])).
Proof.
  erewrite (successful_turn_then_next_input spec_float F64.scalar (Demo.env [])
              "inputs" "outputs" "Song" ["exit"] []);
    [ | discriminate | vm_compute; reflexivity | vm_compute; reflexivity
      | vm_compute; reflexivity | vm_compute; reflexivity
      | vm_compute; reflexivity | vm_compute; reflexivity ].
  vm_compute. split; [reflexivity | tauto].
Defined.

(** X12. Bad URLs do not wear the loop out. Let [inv] hold of the states
    in which the downloads of [urls] leave no file (and be kept by them):
    started in such a state, the run holds one prompt, one download and one
    "Error downloading the file." per input, and the loop carries on with
    the inputs that follow. *)
Theorem missing_files_one_after_another
    (R : Type) (SR : Scalar R) (E : Env R)
    (download_folder output_folder : string) (urls rest : list string)
    (inv : fs E -> Prop) :
  Forall (fun url =>
            lower url <> "exit" /\
            forall d, inv d -> exists p d1 t1,
              download_audio E url download_folder d = (Ok p, d1, t1) /\
              path_exists E p d1 = false /\ inv d1) urls ->
  forall d, inv d -> exists d',
    main_loop E download_folder output_folder (urls ++ rest) d
    = (let '(r, d2, t2) := main_loop E download_folder output_folder rest d' in
       (r, d2,
        flat_map (fun url =>
                    [Input prompt url;
                     Download url (os_path_join download_folder "%(title)s.%(ext)s");
                     Print "Error downloading the file."]) urls ++ t2)%list).
Proof.
  induction 1 as [|url urls [Hx Hmiss] _ IH]; intros d Hd.
  - exists d. simpl.
    destruct (main_loop E download_folder output_folder rest d) as [[r d2] t2].
    reflexivity.
  - destruct (Hmiss d Hd) as (p & d1 & t1 & Hdl & Hex & Hd1).
    destruct (IH d1 Hd1) as (d' & Hrest).
    exists d'. simpl app. rewrite main_loop_cons.
    assert (Hit : iteration E download_folder output_folder url d
                  = (Ok Continue, d1,
                     [Download url (os_path_join download_folder "%(title)s.%(ext)s");
                      Print "Error downloading the file."])).
    { pose proof (download_audio_trace E download_folder url d) as T.
      rewrite Hdl in T. simpl in T. subst t1.
      unfold iteration. apply String.eqb_neq in Hx. rewrite Hx.
      rewrite (bind_ok _ _ _ _ _ _ Hdl).
      unfold bind at 1. unfold reads at 1. rewrite Hex. reflexivity. }
    rewrite Hit, Hrest.
    destruct (main_loop E download_folder output_folder rest d') as [[r d2] t2].
    reflexivity.
Qed.

Lemma missing_files_one_after_another_witness :
  exists d',
    main_loop (Demo.env []) "inputs" "outputs" ["missing"; "missing"; "exit"] []
    = (Ok tt, d',
       [Input prompt "missing"; Download "missing" "inputs/%(title)s.%(ext)s";
        Print "Error downloading the file.";
        Input prompt "missing"; Download "missing" "inputs/%(title)s.%(ext)s";
        Print "Error downloading the file.";
        Input prompt "exit"]).
Proof.
  assert (Hm : lower "missing" <> "exit" /\
               forall d : fs (Demo.env []), d = [] -> exists p d1 t1,
                 download_audio (Demo.env []) "missing" "inputs" d = (Ok p, d1, t1) /\
                 path_exists (Demo.env []) p d1 = false /\ d1 = []).
  { split; [discriminate|]. intros d ->.
    exists "inputs/missing.mp3", [],
      [Download "missing" "inputs/%(title)s.%(ext)s"].
    repeat split. }
  destruct (missing_files_one_after_another spec_float F64.scalar (Demo.env [])
              "inputs" "outputs" ["missing"; "missing"] ["exit"] (fun d => d = [])
              (Forall_cons _ Hm (Forall_cons _ Hm (Forall_nil _))) [] eq_refl)
    as [d' Hrun].
  exists d'.
  change ["missing"; "missing"; "exit"]
    with (["missing"; "missing"] ++ ["exit"])%list.
  rewrite Hrun.
  rewrite main_loop_cons, (iteration_exit (Demo.env []) _ _ "exit" d' eq_refl).
  reflexivity.
Defined.

(* ===================================================================== *)
(** ** Stem persistence: every write once, and what is not caught *)

Section PersistenceMore.
Context {R : Type} `{Scalar R} (E : Env R).

Lemma failure_report_has_no_write source output_folder out parent e cwd d :
  filter is_save_audio
    (failure_report E source output_folder out parent e cwd d) = [].
Proof. reflexivity. Qed.

Lemma save_sources_writes sep output_folder sources :
  writes_raise_only_exceptions E sep output_folder sources ->
  cwd_is_there E ->
  forall d, exists t,
    save_sources E sep output_folder sources d
    = (Ok tt,
       fold_left
         (fun d0 (item : string * audio E) =>
            snd (save_audio E (snd item)
                            (os_path_join output_folder (fst item ++ ".wav"))
                            (samplerate E sep) d0))
         sources d,
       t) /\
    filter is_save_audio t
    = map (fun item : string * audio E =>
             SaveAudio (fst item) (os_path_join output_folder (fst item ++ ".wav"))
                       (samplerate E sep)) sources.
Proof.
  intros Hne Hcwd.
  induction sources as [|[source a] rest IH]; intros d.
  - exists []. split; reflexivity.
  - assert (Hrest : writes_raise_only_exceptions E sep output_folder rest)
      by (intros s0 a0 d0 c0 m0 Hin; apply Hne; right; exact Hin).
    specialize (IH Hrest).
    pose proof (Hne source a d) as Hhere.
    cbn [fold_left map fst snd].
    destruct (save_audio E a (os_path_join output_folder (source ++ ".wav"))
                         (samplerate E sep) d) as [[[]|[cls msg|cls msg]] d1] eqn:Hs.
    + destruct (IH d1) as (t & Hrun & Hw).
      eexists. split.
      * cbn [save_sources].
        rewrite (bind_ok _ _ _ _ _ _ (save_source_saved E sep _ _ _ _ _ Hs)).
        cbn [snd]. rewrite Hrun. reflexivity.
      * cbn [app filter is_save_audio]. rewrite Hw. reflexivity.
    + destruct (Hcwd d1) as [cwd Hd1].
      destruct (IH d1) as (t & Hrun & Hw).
      eexists. split.
      * cbn [save_sources].
        rewrite (bind_ok _ _ _ _ _ _
                   (save_source_failed E sep _ _ _ _ _ _ _ _ Hs Hd1)).
        cbn [snd]. rewrite Hrun. reflexivity.
      * cbn [app filter is_save_audio]. rewrite filter_app.
        rewrite failure_report_has_no_write, Hw. reflexivity.
    + exfalso. apply (Hhere cls msg); [left; reflexivity | reflexivity].
Qed.

Lemma bind_assoc {S A B C} (m : M S A) (k : A -> M S B) (k' : B -> M S C) d :
  bind (bind m k) k' d = bind m (fun a => bind (k a) k') d.
Proof.
  unfold bind. destruct (m d) as [[[a|e] d1] t1]; [|reflexivity].
  destruct (k a d1) as [[[b|e] d2] t2]; [|reflexivity].
  destruct (k' b d2) as [[r d3] t3]. rewrite app_assoc. reflexivity.
Qed.

Lemma bind_ext {S A B} (m : M S A) (k k' : A -> M S B) d :
  (forall a d0, k a d0 = k' a d0) -> bind m k d = bind m k' d.
Proof.
  intros Hk. unfold bind. destruct (m d) as [[[a|e] d1] t1]; [|reflexivity].
  rewrite Hk. reflexivity.
Qed.

Lemma save_sources_app sep output_folder (pre rest : list (string * audio E)) d :
  save_sources E sep output_folder (pre ++ rest) d
  = bind (save_sources E sep output_folder pre)
         (fun _ => save_sources E sep output_folder rest) d.
Proof.
  revert d. induction pre as [|item pre IH]; intros d.
  - simpl. unfold bind, ret.
    destruct (save_sources E sep output_folder rest d) as [[r d1] t1]. reflexivity.
  - simpl app. cbn [save_sources]. rewrite bind_assoc.
    apply bind_ext. intros _ d0. apply IH.
Qed.

End PersistenceMore.

(** X13. As long as writes fail only with instances of [Exception] and
    the handler can report ([os.getcwd()] returns), the loop over the stems
    returns normally and writes each stem once and in the model's order: the
    write attempts in the trace are exactly the stems of the mapping, in
    order, each at the path [os.path.join] gives for [<stem>.wav] in the
    output folder and with the model's sample rate, and the state afterwards
    is the state after all those writes. *)
Theorem every_stem_is_written_once_in_order
    (R : Type) (SR : Scalar R) (E : Env R)
    (sep : separator E) (output_folder : string)
    (sources : list (string * audio E)) (d : fs E) :
  writes_raise_only_exceptions E sep output_folder sources ->
  cwd_is_there E ->
  exists t,
    save_sources E sep output_folder sources d
    = (Ok tt,
       fold_left
         (fun d0 (item : string * audio E) =>
            snd (save_audio E (snd item)
                            (os_path_join output_folder (fst item ++ ".wav"))
                            (samplerate E sep) d0))
         sources d,
       t) /\
    filter is_save_audio t
    = map (fun item : string * audio E =>
             SaveAudio (fst item) (os_path_join output_folder (fst item ++ ".wav"))
                       (samplerate E sep)) sources.
Proof.
  intros Hne Hcwd.
  exact (save_sources_writes E sep output_folder sources Hne Hcwd d).
Qed.

Lemma every_stem_is_written_once_in_order_witness :
  cwd_is_there (Demo.env ["out/bass.wav"]) /\
  exists t,
    fst (fst (save_sources (Demo.env ["out/bass.wav"]) tt "out"
                [("drums", 0); ("bass", 1); ("other", 2)]%nat ["out"])) = Ok tt /\
    snd (save_sources (Demo.env ["out/bass.wav"]) tt "out"
           [("drums", 0); ("bass", 1); ("other", 2)]%nat ["out"]) = t /\
    filter is_save_audio t
    = [SaveAudio "drums" "out/drums.wav" 44100;
       SaveAudio "bass" "out/bass.wav" 44100;
       SaveAudio "other" "out/other.wav" 44100].
Proof.
  split; [exact (demo_cwd_is_there _)|].
  destruct (every_stem_is_written_once_in_order spec_float F64.scalar
              (Demo.env ["out/bass.wav"]) tt "out"
              [("drums", 0); ("bass", 1); ("other", 2)]%nat ["out"]
              (demo_writes_raise_only_exceptions _ _ _ _)
              (demo_cwd_is_there _))
    as (t & Hrun & Hw).
  exists t. rewrite Hrun. repeat split. exact Hw.
Defined.

(** X14. What the handler does not catch is not swallowed: when a write is
    interrupted by an exception outside [Exception] (KeyboardInterrupt),
    [split_audio] ends with it at once. The stems before it were written,
    the stems after it are not attempted, and "Audio splitting completed."
    is not printed. *)
Theorem interrupted_write_ends_split_audio
    (R : Type) (SR : Scalar R) (E : Env R)
    (input_path output_folder : string) (d d1 d2 d3 d4 : fs E)
    (sep : separator E) (pre rest : list (string * audio E))
    (source : string) (a : audio E) (t3 : list event) (cls msg : string) :
  let device := if cuda_is_available E then "cuda" else "cpu" in
  let out := os_path_join output_folder (source ++ ".wav") in
  new_separator E "htdemucs_ft" device d = (Ok sep, d1) ->
  separate_audio_file E sep input_path d1 = Ok (pre ++ (source, a) :: rest)%list ->
  makedirs E output_folder d1 = (Ok tt, d2) ->
  save_sources E sep output_folder pre d2 = (Ok tt, d3, t3) ->
  save_audio E a out (samplerate E sep) d3 = (Raise (BaseException cls msg), d4) ->
  split_audio E input_path output_folder d
  = (Raise (BaseException cls msg), d4,
     [Print ("Splitting audio: " ++ input_path);
      NewSeparator "htdemucs_ft" device; Separate input_path;
      Makedirs output_folder]
     ++ t3 ++ [SaveAudio source out (samplerate E sep)])%list.
Proof.
  intros device out Hsep Hsrc Hmk Hpre Hs.
  assert (Hone : save_source E sep output_folder (source, a) d3
                 = (Raise (BaseException cls msg), d4,
                    [SaveAudio source out (samplerate E sep)])).
  { unfold save_source, try_except, bind, call. fold out. rewrite Hs. reflexivity. }
  assert (Hall : save_sources E sep output_folder (pre ++ (source, a) :: rest) d2
                 = (Raise (BaseException cls msg), d4,
                    t3 ++ [SaveAudio source out (samplerate E sep)])%list).
  { rewrite save_sources_app. rewrite (bind_ok _ _ _ _ _ _ Hpre).
    cbn [save_sources]. rewrite (bind_raise _ _ _ _ _ _ Hone). reflexivity. }
  unfold split_audio. fold device.
  unfold bind at 1. unfold print, emit.
  unfold bind at 1. unfold call at 1. rewrite Hsep.
  unfold bind at 1. unfold call at 1. rewrite Hsrc.
  unfold bind at 1. unfold call at 1. rewrite Hmk.
  rewrite (bind_raise _ _ _ _ _ _ Hall).
  cbn. reflexivity.
Qed.

Lemma interrupted_write_ends_split_audio_witness :
  split_audio Faulty.env "inputs/Song.mp3" "out" []
  = (Raise (BaseException "KeyboardInterrupt" ""),
     ["out/bass.wav"; "out/drums.wav"; "out"],
     [Print "Splitting audio: inputs/Song.mp3";
      NewSeparator "htdemucs_ft" "cuda"; Separate "inputs/Song.mp3";
      Makedirs "out";
      SaveAudio "drums" "out/drums.wav" 44100;
      Print "Saved drums to out/drums.wav";
      SaveAudio "bass" "out/bass.wav" 44100;
      Print "Saved bass to out/bass.wav";
      SaveAudio "other" "out/other.wav" 44100]).
Proof.
  exact (interrupted_write_ends_split_audio spec_float F64.scalar Faulty.env
           "inputs/Song.mp3" "out" [] [] ["out"]
           ["out/bass.wav"; "out/drums.wav"; "out"]
           ["out/bass.wav"; "out/drums.wav"; "out"]
           tt [("drums", 0); ("bass", 1)]%nat [("vocals", 3)]%nat "other" 2%nat
           [SaveAudio "drums" "out/drums.wav" 44100;
            Print "Saved drums to out/drums.wav";
            SaveAudio "bass" "out/bass.wav" 44100;
            Print "Saved bass to out/bass.wav"]
           "KeyboardInterrupt" ""
           eq_refl eq_refl eq_refl eq_refl eq_refl).
Defined.

(* ===================================================================== *)
(** ** Names: the downloaded file, the title, the output directory *)

(** *** [str.replace] in [download_audio] *)

Lemma contains_tail (sub : string) (c : ascii) (s : string) :
  contains sub (String c s) = false ->
  prefix sub (String c s) = false /\ contains sub s = false.
Proof. cbn [contains]. intros Hc. apply orb_false_iff. exact Hc. Qed.

Lemma replace_absent (old new s : string) :
  contains old s = false -> py_replace old new s = s.
Proof.
  unfold py_replace. induction s as [|c s IH]; intros Hc; [reflexivity|].
  destruct (contains_tail old c s Hc) as [Hp Hs].
  cbn [replace_aux]. rewrite Hp, (IH Hs). reflexivity.
Qed.

Lemma replace_skips_dotless_stem (o new stem rest : string) :
  has_char "." stem = false ->
  py_replace (String "." o) new (stem ++ rest)
  = stem ++ py_replace (String "." o) new rest.
Proof.
  unfold py_replace. induction stem as [|a stem IH]; intros Hs; [reflexivity|].
  cbn [has_char] in Hs. apply orb_false_iff in Hs. destruct Hs as [Ha Hs].
  cbn [append replace_aux prefix].
  destruct (ascii_dec "." a) as [<-|].
  - rewrite Ascii.eqb_refl in Ha. discriminate.
  - rewrite (IH Hs). reflexivity.
Qed.

Lemma replace_webm_here (tail : string) :
  py_replace ".webm" ".mp3" (".webm" ++ tail)
  = ".mp3" ++ py_replace ".webm" ".mp3" tail.
Proof. destruct tail; reflexivity. Qed.

Lemma replace_m4a_here (tail : string) :
  py_replace ".m4a" ".mp3" (".m4a" ++ tail)
  = ".mp3" ++ py_replace ".m4a" ".mp3" tail.
Proof. destruct tail; reflexivity. Qed.

Section DownloadNames.
Context {R : Type} `{Scalar R} (E : Env R).

(** X15. A downloaded name that contains neither ".webm" nor ".m4a" (an
    ".opus" or ".mp4" download, say) is returned unchanged: the name of the
    file before conversion, not of the mp3 the post-processor writes. *)
Theorem other_extensions_are_returned_unchanged
    (url download_folder name : string) (d d1 : fs E) :
  ydl_download E url (os_path_join download_folder "%(title)s.%(ext)s") d
  = (Ok name, d1) ->
  contains ".webm" name = false -> contains ".m4a" name = false ->
  download_audio E url download_folder d
  = (Ok name, d1,
     [Download url (os_path_join download_folder "%(title)s.%(ext)s")]).
Proof.
  intros Hdl Hw Hm. unfold download_audio, bind, call, ret. rewrite Hdl.
  rewrite (replace_absent ".webm" ".mp3" name Hw).
  rewrite (replace_absent ".m4a" ".mp3" name Hm). reflexivity.
Qed.

(** X16. A downloaded name whose first dot starts ".webm" or ".m4a" comes
    back with ".mp3" in its place; what follows that extension is rewritten
    in the same way, since the replacement is not tied to the end of the
    name. In particular "folder/Title.webm" and "folder/Title.m4a" become
    "folder/Title.mp3" when folder and title hold no dot. *)
Theorem webm_and_m4a_become_mp3
    (url download_folder stem ext tail : string) (d d1 : fs E) :
  has_char "." stem = false ->
  ext = ".webm" \/ ext = ".m4a" ->
  ydl_download E url (os_path_join download_folder "%(title)s.%(ext)s") d
  = (Ok (stem ++ ext ++ tail), d1) ->
  download_audio E url download_folder d
  = (Ok (stem ++ ".mp3"
              ++ py_replace ".m4a" ".mp3" (py_replace ".webm" ".mp3" tail)),
     d1,
     [Download url (os_path_join download_folder "%(title)s.%(ext)s")]).
Proof.
  intros Hs Hext Hdl. unfold download_audio, bind, call, ret. rewrite Hdl.
  do 3 f_equal.
  rewrite (replace_skips_dotless_stem "webm" ".mp3" stem _ Hs).
  destruct Hext as [-> | ->].
  - rewrite replace_webm_here.
    rewrite (replace_skips_dotless_stem "m4a" ".mp3" stem _ Hs).
    reflexivity.
  - change (py_replace ".webm" ".mp3" (".m4a" ++ tail))
      with (".m4a" ++ py_replace ".webm" ".mp3" tail).
    rewrite (replace_skips_dotless_stem "m4a" ".mp3" stem _ Hs).
    rewrite replace_m4a_here. reflexivity.
Qed.

End DownloadNames.

Lemma other_extensions_are_returned_unchanged_witness :
  contains ".webm" "inputs/talk.opus" = false /\
  contains ".m4a" "inputs/talk.opus" = false /\
  download_audio Faulty.env "talk" "inputs" []
  = (Ok "inputs/talk.opus", ["inputs/talk.mp3"],
     [Download "talk" "inputs/%(title)s.%(ext)s"]) /\
  path_exists Faulty.env "inputs/talk.opus" ["inputs/talk.mp3"] = false.
Proof.
  split; [reflexivity|]. split; [reflexivity|]. split; [|reflexivity].
  exact (other_extensions_are_returned_unchanged Faulty.env "talk" "inputs"
           "inputs/talk.opus" [] ["inputs/talk.mp3"] eq_refl eq_refl eq_refl).
Defined.

Lemma webm_and_m4a_become_mp3_witness :
  download_audio (Demo.env []) "Song" "inputs" []
  = (Ok "inputs/Song.mp3", ["inputs/Song.mp3"],
     [Download "Song" "inputs/%(title)s.%(ext)s"]).
Proof.
  exact (webm_and_m4a_become_mp3 (Demo.env []) "Song" "inputs" "inputs/Song"
           ".webm" "" [] ["inputs/Song.mp3"] eq_refl (or_introl eq_refl) eq_refl).
Defined.

(** *** The title and the output directory *)

(** X17. The title is read back from the downloaded path: for a file
    [folder/title.ext] whose title holds no separator and whose extension
    holds neither separator nor dot, [main] takes exactly [title] as the
    song title, provided the title is not made of dots only; a title made of
    dots only (the empty title included) keeps its extension. *)
Theorem song_title_is_read_back (folder title ext : string) :
  has_char "/" title = false ->
  has_char "/" ext = false -> has_char "." ext = false ->
  os_path_splitext_root
    (os_path_basename (os_path_join folder (title ++ String "." ext)))
  = if all_chars (Ascii.eqb ".") title then title ++ String "." ext else title.
Proof.
  intros Ht He Hd.
  assert (Hx : has_char "/" (title ++ String "." ext) = false).
  { rewrite has_char_app, Ht. cbn [has_char]. rewrite He. reflexivity. }
  rewrite (basename_of_join folder _ Hx).
  unfold os_path_splitext_root, rfind.
  rewrite (rfind_aux_absent "/" _ Hx).
  rewrite (rfind_aux_last "." title ext Hd).
  replace (-1 <? 0 + Z.of_nat (String.length title))%Z with true
    by (symmetry; apply Z.ltb_lt; lia).
  replace (Z.to_nat (-1 + 1)) with 0%nat by reflexivity.
  replace (Z.to_nat (0 + Z.of_nat (String.length title) - (-1 + 1)))
    with (String.length title) by lia.
  rewrite substring_take_app.
  destruct (all_chars (Ascii.eqb ".") title); [reflexivity|].
  unfold py_take.
  replace (Z.to_nat (0 + Z.of_nat (String.length title)))
    with (String.length title) by lia.
  apply substring_take_app.
Qed.

Lemma song_title_is_read_back_witness :
  os_path_splitext_root (os_path_basename (os_path_join "inputs" "Mr. Blue Sky.mp3"))
  = "Mr. Blue Sky" /\
  os_path_splitext_root (os_path_basename (os_path_join "inputs" "...mp3"))
  = "...mp3".
Proof.
  split.
  - exact (song_title_is_read_back "inputs" "Mr. Blue Sky" "mp3"
             eq_refl eq_refl eq_refl).
  - exact (song_title_is_read_back "inputs" ".." "mp3" eq_refl eq_refl eq_refl).
Defined.

Lemma digits_have_no_separator (d : Decimal.uint) :
  has_char "/" (NilEmpty.string_of_uint d) = false.
Proof. induction d; simpl; auto. Qed.

Lemma str_of_int_has_no_separator (z : Z) : has_char "/" (str_of_int z) = false.
Proof.
  unfold str_of_int, NilZero.string_of_int, NilZero.string_of_uint.
  destruct (Z.to_int z) as [u|u]; destruct u; cbn [has_char];
    try reflexivity; apply digits_have_no_separator.
Qed.

Lemma label_has_no_separator (key : string) :
  In key labels -> has_char "/" key = false.
Proof.
  intros Hk. vm_compute in Hk.
  repeat (destruct Hk as [<- | Hk]; [reflexivity|]). contradiction.
Qed.

(** X18. Whatever path the downloader returns, the output directory is a
    direct child of "outputs": the directory name built from the file name,
    a key label and the tempo holds no separator, so [os.path.join] neither
    restarts from an absolute path nor descends further. *)
Theorem output_directory_is_a_child_of_outputs
    (R : Type) (SR : Scalar R) (input_path key name : string) (bpm : R) :
  In key labels ->
  folder_name (os_path_splitext_root (os_path_basename input_path)) key bpm
  = Ok name ->
  has_char "/" name = false /\
  os_path_join "outputs" name = "outputs/" ++ name /\
  os_path_dirname (os_path_join "outputs" name) = "outputs".
Proof.
  intros Hk Hname. unfold folder_name in Hname.
  destruct (s_int bpm) as [n|e]; [|discriminate].
  cbn [rbind] in Hname. injection Hname as <-.
  set (title := os_path_splitext_root (os_path_basename input_path)).
  assert (Ht : has_char "/" title = false)
    by (apply splitext_root_has_no_separator, basename_has_no_separator).
  match goal with
  | |- context [os_path_join "outputs" ?x] => set (name := x)
  end.
  assert (Hn : has_char "/" name = false).
  { unfold name. rewrite has_char_app, Ht. cbn [has_char].
    rewrite has_char_app, (label_has_no_separator key Hk). cbn [has_char].
    rewrite str_of_int_has_no_separator. reflexivity. }
  assert (Hj : os_path_join "outputs" name = "outputs/" ++ name).
  { unfold os_path_join. rewrite (prefix_separator _ Hn). reflexivity. }
  split; [exact Hn|]. split; [exact Hj|].
  rewrite Hj. unfold os_path_dirname, rfind.
  change ("outputs/" ++ name) with ("outputs" ++ String "/" name).
  rewrite (rfind_aux_last "/" "outputs" _ Hn).
  unfold py_take.
  change (Z.to_nat (0 + Z.of_nat (String.length "outputs") + 1))
    with (String.length "outputs/").
  change ("outputs" ++ String "/" name) with ("outputs/" ++ name).
  rewrite substring_take_app. reflexivity.
Qed.

Lemma output_directory_is_a_child_of_outputs_witness :
  os_path_join "outputs" "shadow_C# minor_90" = "outputs/shadow_C# minor_90" /\
  has_char "/" "shadow_C# minor_90" = false.
Proof.
  destruct (output_directory_is_a_child_of_outputs spec_float F64.scalar
              "/etc/../tmp/shadow.mp3" "C# minor" "shadow_C# minor_90"
              (F64.of_int 90)) as (Hn & Hj & _).
  - vm_compute. tauto.
  - vm_compute. reflexivity.
  - split; assumption.
Defined.

(* ===================================================================== *)
(** ** What a successful analysis returns *)

Lemma estimate_key_ok_length {R : Type} `{Scalar R} (c : list R) (label : string) :
  estimate_key c = Ok label -> List.length c = 12%nat.
Proof.
  intros Hl.
  destruct (Nat.eq_dec (List.length c) 12) as [E|E]; [exact E|exfalso].
  unfold estimate_key, major_scores, scores in Hl.
  change (seq 0 12) with (0%nat :: seq 1 11) in Hl. cbn [mapR] in Hl.
  unfold np_dot at 1 in Hl. rewrite np_roll_length in Hl.
  replace (List.length major_profile =? List.length c)%nat with false in Hl
    by (symmetry; apply Nat.eqb_neq; simpl; lia).
  discriminate.
Qed.

(** X19. When the analysis returns, it returns a key out of the 24 labels
    together with the tempo of the beat tracker, after exactly three library
    calls (decode, beat tracking, chroma) on a 12-bin chroma mean, and it
    leaves the state as it was. *)
Theorem analysis_result_is_a_label_and_the_tempo
    (R : Type) (SR : Scalar R) (E : Env R)
    (input_path key : string) (bpm : R) (d d' : fs E) (t : list event) :
  detect_key_and_bpm E input_path d = (Ok (key, bpm), d', t) ->
  d' = d /\ t = [Load input_path; BeatTrack; ChromaStft] /\
  In key labels /\
  exists w c,
    librosa_load E input_path d = Ok w /\ beat_track E w = Ok bpm /\
    chroma_mean E w = Ok c /\ List.length c = 12%nat /\ estimate_key c = Ok key.
Proof.
  unfold detect_key_and_bpm, bind, call, lift, ret.
  destruct (librosa_load E input_path d) as [w|e] eqn:Hload; [|discriminate].
  destruct (beat_track E w) as [tempo|e] eqn:Hbeat; [|discriminate].
  destruct (chroma_mean E w) as [c|e] eqn:Hchroma; [|discriminate].
  destruct (estimate_key c) as [label|e] eqn:Hkey; [|discriminate].
  intros Heq. injection Heq as -> -> <- <-.
  pose proof (estimate_key_ok_length c key Hkey) as Hc.
  split; [reflexivity|]. split; [reflexivity|]. split.
  - destruct (estimate_key_run c Hc)
      as (major & minor & bM & bm & M & m & kM & km &
          _ & _ & _ & _ & _ & _ & _ & _ & IM & Im & Hrun).
    rewrite Hrun in Hkey. injection Hkey as <-.
    destruct (s_gt M m); [apply labels_major | apply labels_minor]; assumption.
  - exists w, c. auto.
Qed.

Lemma analysis_result_is_a_label_and_the_tempo_witness :
  detect_key_and_bpm (Demo.env []) "inputs/Song.mp3" ["inputs/Song.mp3"]
  = (Ok ("D minor", Demo.bpm_128_7), ["inputs/Song.mp3"],
     [Load "inputs/Song.mp3"; BeatTrack; ChromaStft]) /\
  In "D minor" labels.
Proof.
  assert (Hrun : detect_key_and_bpm (Demo.env []) "inputs/Song.mp3" ["inputs/Song.mp3"]
                 = (Ok ("D minor", Demo.bpm_128_7), ["inputs/Song.mp3"],
                    [Load "inputs/Song.mp3"; BeatTrack; ChromaStft]))
    by (vm_compute; reflexivity).
  split; [exact Hrun|].
  exact (proj1 (proj2 (proj2 (analysis_result_is_a_label_and_the_tempo
                                spec_float F64.scalar (Demo.env [])
                                _ _ _ _ _ _ Hrun)))).
Defined.

(* ===================================================================== *)
(** ** A flat chroma mean *)



